(** * gotp: HOTP (RFC 4226) and TOTP (RFC 6238) one-time passwords

    A shallow embedding of [gotp.go] and the properties of its
    specification.  The Go program is embedded as follows.

    - [byte] is the standard library's [Byte.byte]; a [[]byte] is a
      [list byte] (the library never writes through a slice, so slices
      are held by value).
    - [int] and [int64] are 64-bit two's complement integers, embedded
      in [Z] with the wrap-around written out ([wrap64]).
    - A Go function that can panic returns an [outcome]; functions that
      read or write the process state (package variables, the heap of
      [Token] structs, the wall clock, the random generator) run in the
      state monad [Go].
    - [crypto/sha1], [crypto/hmac], [encoding/base32], [fmt.Sprintf],
      [math.Pow10] and [strings.ToUpper] belong to the Go standard
      library; they are embedded from their published definitions
      (FIPS 180-4, RFC 2104, RFC 4648, the package documentation) and
      checked on the published test vectors. *)

From Stdlib Require Import ZArith Lia List Bool Ascii String.
From Stdlib.Strings Require Import Byte.
From stdpp Require Import base list.
Import ListNotations.
Local Open Scope Z_scope.

(** ** Bytes and machine integers *)

Definition byte_val (b : byte) : Z := Z.of_N (Byte.to_N b).

(** Go's conversion [byte(x)]: the low eight bits. *)
Definition to_byte (z : Z) : byte :=
  match Byte.of_N (Z.to_N (z mod 256)) with
  | Some b => b
  | None => x00
  end.

(** Two's complement wrap-around of [int64] (and of [int] on 64-bit
    platforms). *)
Definition wrap64 (z : Z) : Z := (z + 2 ^ 63) mod 2 ^ 64 - 2 ^ 63.

Definition min_int64 : Z := - 2 ^ 63.
Definition max_int64 : Z := 2 ^ 63 - 1.
Definition in_int64 (z : Z) : Prop := min_int64 <= z <= max_int64.

(** ** crypto/sha1 (FIPS 180-4, section 6.1) *)

Module SHA1.

Definition Size : nat := 20.
Definition BlockSize : nat := 64.

Definition u32 (z : Z) : Z := z mod 2 ^ 32.

Definition rotl32 (x k : Z) : Z :=
  u32 (Z.lor (Z.shiftl x k) (Z.shiftr x (32 - k))).

Definition not32 (x : Z) : Z := Z.lxor x 0xFFFFFFFF.

Definition K (t : nat) : Z :=
  if (t <? 20)%nat then 0x5A827999
  else if (t <? 40)%nat then 0x6ED9EBA1
  else if (t <? 60)%nat then 0x8F1BBCDC
  else 0xCA62C1D6.

Definition f (t : nat) (b c d : Z) : Z :=
  if (t <? 20)%nat then Z.lor (Z.land b c) (Z.land (not32 b) d)
  else if (t <? 40)%nat then Z.lxor (Z.lxor b c) d
  else if (t <? 60)%nat then Z.lor (Z.land (Z.lor b c) d) (Z.land b c)
  else Z.lxor (Z.lxor b c) d.

(** Big-endian words of a byte string, four bytes at a time. *)
Fixpoint words (p : list Z) : list Z :=
  match p with
  | b0 :: b1 :: b2 :: b3 :: rest =>
      Z.lor (Z.lor (Z.lor (Z.shiftl b0 24) (Z.shiftl b1 16)) (Z.shiftl b2 8)) b3
        :: words rest
  | _ => []
  end.

(** The message schedule beyond the first sixteen words; [recent] holds
    the words so far, latest first. *)
Fixpoint schedule (n : nat) (recent : list Z) : list Z :=
  match n with
  | O => []
  | S n' =>
      let wt :=
        rotl32 (Z.lxor (Z.lxor (Z.lxor (nth 2 recent 0) (nth 7 recent 0))
                          (nth 13 recent 0)) (nth 15 recent 0)) 1 in
      wt :: schedule n' (wt :: recent)
  end.

Definition state : Type := Z * Z * Z * Z * Z.

Definition round (t : nat) (st : state) (wt : Z) : state :=
  let '(a, b, c, d, e) := st in
  (u32 (rotl32 a 5 + f t b c d + e + wt + K t), a, rotl32 b 30, c, d).

Fixpoint rounds (t : nat) (ws : list Z) (st : state) : state :=
  match ws with
  | [] => st
  | wt :: ws' => rounds (S t) ws' (round t st wt)
  end.

Definition block (h : state) (p : list Z) : state :=
  let w := words p in
  let '(a, b, c, d, e) := rounds 0 (w ++ schedule 64 (rev w)) h in
  let '(h0, h1, h2, h3, h4) := h in
  (u32 (h0 + a), u32 (h1 + b), u32 (h2 + c), u32 (h3 + d), u32 (h4 + e)).

(** [for len(p) >= chunk { ...; p = p[chunk:] }]; every turn consumes
    64 bytes, so [length p] turns are more than enough. *)
Fixpoint blocks (fuel : nat) (h : state) (p : list Z) : state :=
  match fuel with
  | O => h
  | S fuel' =>
      if (BlockSize <=? length p)%nat
      then blocks fuel' (block h (take BlockSize p)) (drop BlockSize p)
      else h
  end.

Definition init : state :=
  (0x67452301, 0xEFCDAB89, 0x98BADCFE, 0x10325476, 0xC3D2E1F0).

Definition be_bytes (n : nat) (z : Z) : list Z :=
  map (fun i => Z.land (Z.shiftr z (8 * Z.of_nat i)) 0xFF) (rev (seq 0 n)).

(** Padding: a 1 bit, zero bits up to 56 mod 64 bytes, then the
    message length in bits as a 64-bit big-endian number. *)
Definition pad (len : nat) : list Z :=
  0x80 :: repeat 0 (Z.to_nat ((55 - Z.of_nat len) mod 64))
    ++ be_bytes 8 (8 * Z.of_nat len).

Definition digest_bytes (h : state) : list byte :=
  let '(h0, h1, h2, h3, h4) := h in
  map to_byte (be_bytes 4 h0 ++ be_bytes 4 h1 ++ be_bytes 4 h2
                 ++ be_bytes 4 h3 ++ be_bytes 4 h4).

Definition Sum (data : list byte) : list byte :=
  let p := map byte_val data ++ pad (length data) in
  digest_bytes (blocks (length p) init p).

End SHA1.

(** ** crypto/hmac over SHA-1 (RFC 2104) *)

Module HMAC.

Definition xor_pad (c : Z) (key : list byte) : list byte :=
  map (fun b => to_byte (Z.lxor (byte_val b) c))
    (key ++ repeat x00 (SHA1.BlockSize - length key)).

(** [hmac.New(sha1.New, key)], [Write(message)], [Sum(nil)]. *)
Definition Sum (key message : list byte) : list byte :=
  let key' :=
    if (SHA1.BlockSize <? length key)%nat then SHA1.Sum key else key in
  let inner := SHA1.Sum (xor_pad 0x36 key' ++ message) in
  SHA1.Sum (xor_pad 0x5c key' ++ inner).

End HMAC.

(** ** fmt.Sprintf, for integer operands

    The fragment of the format language that [GenerateOTP] can build:
    literal text, and directives [%[flags][width]verb] with the flags
    [0], [-], [+] and space, a decimal width, and the verbs [%], [d] and
    [v]; any other verb is rendered the way [fmt] reports a verb it
    does not support.  Precisions, argument indexes and [*] are not
    part of the fragment.  A width is read as [parsenum] reads it: once
    the number read so far exceeds 10^6 and another digit follows, the
    scanner gives up on the rest of the format. *)

Module fmt.

Local Open Scope string_scope.
Local Open Scope Z_scope.

Definition digit (d : Z) : ascii := ascii_of_nat (Z.to_nat (48 + d)).

(** The digit loop of [fmtInteger]:
    [for u >= 10 { buf[i] = '0' + u%10; u /= 10 }; buf[i] = '0' + u]. *)
Fixpoint digits (fuel : nat) (u : Z) (buf : string) : string :=
  match fuel with
  | O => buf
  | S fuel' =>
      if 10 <=? u
      then digits fuel' (u / 10) (String (digit (u mod 10)) buf)
      else String (digit u) buf
  end.

Definition decimal (u : Z) : string :=
  digits (S (Z.to_nat (Z.log2 u))) u "".

Fixpoint padding (c : ascii) (n : nat) : string :=
  match n with
  | O => ""
  | S n' => String c (padding c n')
  end.

Record flags := { zero : bool; minus : bool; plus : bool; space : bool }.

Definition no_flags : flags :=
  {| zero := false; minus := false; plus := false; space := false |}.

Definition fmtInteger (fl : flags) (wid : option Z) (x : Z) : string :=
  let negative := x <? 0 in
  let signed := negative || plus fl || space fl in
  let prec :=
    match wid with
    | Some w => if zero fl && negb (minus fl)
                then (if signed then w - 1 else w) else 0
    | None => 0
    end in
  let ds := decimal (Z.abs x) in
  let ds := padding "0" (Z.to_nat prec - String.length ds) ++ ds in
  let sign :=
    if negative then "-" else if plus fl then "+"
    else if space fl then " " else "" in
  let body := sign ++ ds in
  match wid with
  | Some w =>
      let fill := padding " " (Z.to_nat w - String.length body) in
      if minus fl then body ++ fill else fill ++ body
  | None => body
  end.

Definition is_digit (c : ascii) : bool :=
  (48 <=? nat_of_ascii c)%nat && (nat_of_ascii c <=? 57)%nat.

Definition digit_val (c : ascii) : Z := Z.of_nat (nat_of_ascii c) - 48.

Definition set_flag (fl : flags) (c : ascii) : option flags :=
  if Ascii.eqb c "0" then
    Some {| zero := negb (minus fl); minus := minus fl;
            plus := plus fl; space := space fl |}
  else if Ascii.eqb c "-" then
    Some {| zero := false; minus := true; plus := plus fl; space := space fl |}
  else if Ascii.eqb c "+" then
    Some {| zero := zero fl; minus := minus fl; plus := true; space := space fl |}
  else if Ascii.eqb c " " then
    Some {| zero := zero fl; minus := minus fl; plus := plus fl; space := true |}
  else None.

Fixpoint extra (first : bool) (a : list Z) : string :=
  match a with
  | [] => ""
  | x :: a' =>
      (if first then "" else ", ") ++ "int="
        ++ fmtInteger no_flags None x ++ extra false a'
  end.

(** Where the scanner of [doPrintf] stands: in literal text, among the
    flags after a [%], or inside the width. *)
Inductive scanner :=
| Literal
| Flags (fl : flags)
| Width (fl : flags) (w : Z).

(** [tooLarge]: the magnitude is too large for a width. *)
Definition tooLarge (x : Z) : bool := (1000000 <? x) || (x <? -1000000).

(** The end of the format: a directive left without its verb is
    reported, and so are the operands left over. *)
Definition finish (st : scanner) (a : list Z) : string :=
  (match st with Literal => "" | _ => "%!(NOVERB)" end)
    ++ (match a with [] => "" | _ => "%!(EXTRA " ++ extra true a ++ ")" end).

(** One directive, once its verb is reached: the text it yields and
    the operands left. *)
Definition printArg (fl : flags) (wid : option Z) (verb : ascii)
    (a : list Z) : string * list Z :=
  if Ascii.eqb verb "%" then ("%", a)
  else match a with
       | [] => ("%!" ++ String verb "(MISSING)", [])
       | x :: a' =>
           if Ascii.eqb verb "d" || Ascii.eqb verb "v"
           then (fmtInteger fl wid x, a')
           else ("%!" ++ String verb "(int=" ++ fmtInteger no_flags None x ++ ")", a')
       end.

Fixpoint doPrintf (st : scanner) (format : string) (a : list Z) : string :=
  match format with
  | EmptyString => finish st a
  | String c rest =>
      match st with
      | Literal =>
          if Ascii.eqb c "%" then doPrintf (Flags no_flags) rest a
          else String c (doPrintf Literal rest a)
      | Flags fl =>
          match set_flag fl c with
          | Some fl' => doPrintf (Flags fl') rest a
          | None =>
              if is_digit c then doPrintf (Width fl (digit_val c)) rest a
              else let '(out, a') := printArg fl None c a in
                   out ++ doPrintf Literal rest a'
          end
      | Width fl w =>
          if is_digit c then
            if tooLarge w then finish st a
            else doPrintf (Width fl (10 * w + digit_val c)) rest a
          else let '(out, a') := printArg fl (Some w) c a in
               out ++ doPrintf Literal rest a'
      end
  end.

Definition Sprintf (format : string) (a : list Z) : string :=
  doPrintf Literal format a.

End fmt.

(** ** math.Pow10 and the conversion to int

    [int(math.Pow10(n))].  [math.Pow10 n] is the float64 nearest to
    [10^n]; it is the exact power for [0 <= n <= 22], lies strictly
    between 0 and 1 (or is 0) for negative [n], and from [n = 19] on (up
    to [+Inf]) exceeds every int64.  The conversion truncates toward
    zero; out of range the language leaves the result to the
    implementation, and this is the amd64 one (the smallest int64). *)
Definition int_Pow10 (n : Z) : Z :=
  if n <? 0 then 0
  else if n <=? 18 then 10 ^ n
  else min_int64.

(** ** encoding/base32 (RFC 4648, section 6) and strings.ToUpper *)

Module base32.

Local Open Scope string_scope.
Local Open Scope Z_scope.

Definition encodeStd : string := "ABCDEFGHIJKLMNOPQRSTUVWXYZ234567".

Definition StdPadding : ascii := "="%char.

Definition sym (b : Z) : ascii :=
  match String.get (Z.to_nat (Z.land b 31)) encodeStd with
  | Some c => c
  | None => StdPadding
  end.

Definition u8 (z : Z) : Z := z mod 256.

(** One quantum of [Encoding.Encode]: [n] source bytes (1 to 5; the
    bytes beyond [n] are passed as 0) are unpacked into eight 5-bit
    groups, and the groups that hold no source bit are replaced by
    the padding character. *)
Definition quantum (n : nat) (s0 s1 s2 s3 s4 : Z) : string :=
  let b7 := Z.land s4 0x1F in
  let b6 := Z.lor (Z.shiftr s4 5) (Z.land (u8 (Z.shiftl s3 3)) 0x1F) in
  let b5 := Z.land (Z.shiftr s3 2) 0x1F in
  let b4 := Z.lor (Z.shiftr s3 7) (Z.land (u8 (Z.shiftl s2 1)) 0x1F) in
  let b3 := Z.lor (Z.land (Z.shiftr s2 4) 0x1F) (Z.land (u8 (Z.shiftl s1 4)) 0x1F) in
  let b2 := Z.land (Z.shiftr s1 1) 0x1F in
  let b1 := Z.lor (Z.land (Z.shiftr s1 6) 0x1F) (Z.land (u8 (Z.shiftl s0 2)) 0x1F) in
  let b0 := Z.shiftr s0 3 in
  let p (k : nat) (b : Z) := if (n <? k)%nat then StdPadding else sym b in
  String (sym b0) (String (sym b1) (String (p 2%nat b2) (String (p 2%nat b3)
    (String (p 3%nat b4) (String (p 4%nat b5) (String (p 4%nat b6)
      (String (p 5%nat b7) EmptyString))))))).

Fixpoint EncodeToString (src : list byte) : string :=
  match src with
  | [] => ""
  | [s0] => quantum 1 (byte_val s0) 0 0 0 0
  | [s0; s1] => quantum 2 (byte_val s0) (byte_val s1) 0 0 0
  | [s0; s1; s2] => quantum 3 (byte_val s0) (byte_val s1) (byte_val s2) 0 0
  | [s0; s1; s2; s3] =>
      quantum 4 (byte_val s0) (byte_val s1) (byte_val s2) (byte_val s3) 0
  | s0 :: s1 :: s2 :: s3 :: s4 :: rest =>
      quantum 5 (byte_val s0) (byte_val s1) (byte_val s2) (byte_val s3) (byte_val s4)
        ++ EncodeToString rest
  end.

End base32.

Module strings.

(** [strings.ToUpper] on ASCII text (all that [base32] produces): the
    letters [a]..[z] move to [A]..[Z], every other byte stays. *)
Definition upper (c : ascii) : ascii :=
  let n := nat_of_ascii c in
  if (97 <=? n)%nat && (n <=? 122)%nat then ascii_of_nat (n - 32) else c.

Fixpoint ToUpper (s : string) : string :=
  match s with
  | EmptyString => EmptyString
  | String c s' => String (upper c) (ToUpper s')
  end.

End strings.

(** ** The Go runtime: panics, the process state and the clock *)

Inductive panic :=
| DivideByZero
| IndexOutOfRange
| NilDereference
| MakeLenOutOfRange
| InvalidArgument.

Inductive outcome (A : Type) :=
| Done (a : A)
| Panicked (p : panic).

Arguments Done {A} a.
Arguments Panicked {A} p.

(** An [error] value is [nil] or carries its message ([errors.New]). *)
Definition error : Type := option string.

Definition errors_New (msg : string) : error := Some msg.

(** [Token] is the core one-time password struct. *)
Record Token := { Seed : list byte; Base32 : string }.

(** A [*Token]: [nil], or the address of a struct on the heap. *)
Inductive pointer :=
| null
| addr (a : nat).

(** What [time.Now()] returns, as far as the package looks at it. *)
Record Time := { Unix : Z; UnixNano : Z }.

(** The process state: the package variables, the allocated tokens, how
    often the wall clock has been read, the state of the global random
    generator (its seed and the number of draws since), and the
    process's GODEBUG setting [randseednop]: when it is set (the default
    since Go 1.24) [rand.Seed] does nothing; when it is not (and in
    every earlier Go) [rand.Seed] reseeds the generator. *)
Record World := {
  StepSeconds : Z;
  SeedLength : Z;
  TokenLength : Z;
  heap : list Token;
  clock_reads : nat;
  rand_seed : Z;
  rand_draws : nat;
  randseednop : bool
}.

Definition Go (A : Type) : Type := World -> outcome (A * World).

Definition ret {A : Type} (a : A) : Go A := fun w => Done (a, w).

Definition bind {A B : Type} (m : Go A) (k : A -> Go B) : Go B :=
  fun w =>
    match m w with
    | Done (a, w') => k a w'
    | Panicked p => Panicked p
    end.

Definition throw {A : Type} (p : panic) : Go A := fun _ => Panicked p.

(** Reading a package variable. *)
Definition global {A : Type} (var : World -> A) : Go A := fun w => Done (var w, w).

Notation "x <- m ;; k" := (bind m (fun x => k))
  (at level 62, m at next level, right associativity).

(** [s[i]] as an operand, and the assignment [s[i] = x]. *)
Definition index {A : Type} (s : list A) (i : Z) : Go A :=
  if i <? 0 then throw IndexOutOfRange
  else match s !! Z.to_nat i with
       | Some x => ret x
       | None => throw IndexOutOfRange
       end.

Definition store {A : Type} (s : list A) (i : Z) (x : A) : Go (list A) :=
  if (0 <=? i) && (i <? Z.of_nat (length s))
  then ret (<[Z.to_nat i := x]> s)
  else throw IndexOutOfRange.

(** [make([]T, n)], zeroed. *)
Definition make {A : Type} (n : Z) (zero : A) : Go (list A) :=
  if n <? 0 then throw MakeLenOutOfRange else ret (replicate (Z.to_nat n) zero).

(** Integer [/] and [%] truncate toward zero and panic on a zero
    divisor; [<<] drops the bits shifted out. *)
Definition int_quo (x y : Z) : Go Z :=
  if y =? 0 then throw DivideByZero else ret (wrap64 (Z.quot x y)).

Definition int_rem (x y : Z) : Go Z :=
  if y =? 0 then throw DivideByZero else ret (wrap64 (Z.rem x y)).

Definition int_shl (x k : Z) : Z := wrap64 (Z.shiftl x k).

(** [t.Seed], [t.Base32]: the struct behind [t]. *)
Definition load (t : pointer) : Go Token :=
  fun w =>
    match t with
    | null => Panicked NilDereference
    | addr a =>
        match heap w !! a with
        | Some tok => Done (tok, w)
        | None => Panicked NilDereference
        end
    end.

(** [&Token{...}]: a fresh struct. *)
Definition new (tok : Token) : Go pointer :=
  fun w =>
    Done (addr (length (heap w)),
          {| StepSeconds := StepSeconds w; SeedLength := SeedLength w;
             TokenLength := TokenLength w; heap := heap w ++ [tok];
             clock_reads := clock_reads w;
             rand_seed := rand_seed w; rand_draws := rand_draws w;
             randseednop := randseednop w |}).

(** The process state after [rand.Seed(seed)]. *)
Definition seeded (seed : Z) (w : World) : World :=
  if randseednop w then w
  else {| StepSeconds := StepSeconds w; SeedLength := SeedLength w;
          TokenLength := TokenLength w; heap := heap w;
          clock_reads := clock_reads w;
          rand_seed := seed; rand_draws := 0;
          randseednop := randseednop w |}.

(** The process state after one more reading of the wall clock. *)
Definition tick (w : World) : World :=
  {| StepSeconds := StepSeconds w; SeedLength := SeedLength w;
     TokenLength := TokenLength w; heap := heap w;
     clock_reads := S (clock_reads w);
     rand_seed := rand_seed w; rand_draws := rand_draws w;
     randseednop := randseednop w |}.

(** [[]byte(string(runes))]: the UTF-8 encoding of each rune. *)
Definition utf8 (r : Z) : list byte :=
  if (r <? 0) || (0x10FFFF <? r) || ((0xD800 <=? r) && (r <=? 0xDFFF))
  then [xef; xbf; xbd]
  else if r <? 0x80 then [to_byte r]
  else if r <? 0x800 then
    [to_byte (Z.lor 0xC0 (Z.shiftr r 6)); to_byte (Z.lor 0x80 (Z.land r 0x3F))]
  else if r <? 0x10000 then
    [to_byte (Z.lor 0xE0 (Z.shiftr r 12));
     to_byte (Z.lor 0x80 (Z.land (Z.shiftr r 6) 0x3F));
     to_byte (Z.lor 0x80 (Z.land r 0x3F))]
  else
    [to_byte (Z.lor 0xF0 (Z.shiftr r 18));
     to_byte (Z.lor 0x80 (Z.land (Z.shiftr r 12) 0x3F));
     to_byte (Z.lor 0x80 (Z.land (Z.shiftr r 6) 0x3F));
     to_byte (Z.lor 0x80 (Z.land r 0x3F))].

Definition runes (s : string) : list Z :=
  map (fun c => Z.of_nat (nat_of_ascii c)) (list_ascii_of_string s).

(** ** Package gotp *)

Local Open Scope string_scope.
Local Open Scope Z_scope.

(** The values the package variables are declared with, in a process
    where [rand.Seed] reseeds the generator. *)
Definition start : World :=
  {| StepSeconds := 30; SeedLength := 20; TokenLength := 6;
     heap := []; clock_reads := 0; rand_seed := 1; rand_draws := 0;
     randseednop := false |}.

(** [runeCharacters] is a slice of available runes for secret
    generation. *)
Definition runeCharacters : list Z := runes "1234567890ABCDEFGHIJKLMNOPQRSTUVWXYZ".

(** [GenerateOTP] generates a single OTP based on the OTP's seed and the
    counter factor. *)
Definition GenerateOTP (t : pointer) (counterBytes : list byte) : Go (string * error) :=
  tok <- load t ;;
  if (length (Seed tok) =? 0)%nat then
    ret ("", errors_New "OTP has no seed.")
  else if (length counterBytes =? 0)%nat then
    ret ("", errors_New "Counter is nil or otherwise malformed.")
  else
    let hmac := HMAC.Sum (Seed tok) counterBytes in
    last <- index hmac (Z.of_nat (length hmac) - 1) ;;
    let offset := Z.land (byte_val last) 0xF in
    h0 <- index hmac offset ;;
    h1 <- index hmac (offset + 1) ;;
    h2 <- index hmac (offset + 2) ;;
    h3 <- index hmac (offset + 3) ;;
    let otp :=
      Z.lor (Z.lor (Z.lor (int_shl (Z.land (byte_val h0) 0x7F) 24)
                          (int_shl (Z.land (byte_val h1) 0xFF) 16))
                   (int_shl (Z.land (byte_val h2) 0xFF) 8))
            (Z.land (byte_val h3) 0xFF) in
    n <- global TokenLength ;;
    otp <- int_rem otp (int_Pow10 n) ;;
    let otpString := fmt.Sprintf (fmt.Sprintf "%%0%dd" [n]) [otp] in
    ret (otpString, None).

(** The loop of [GenerateTOTP], [for i := 7; i >= 0; i--], entered with
    [i + 1 = n]. *)
Fixpoint timeBytes_loop (n : nat) (timeStep : Z) (timeBytes : list byte)
    : Go (list byte) :=
  match n with
  | O => ret timeBytes
  | S i =>
      timeBytes <- store timeBytes (Z.of_nat i) (to_byte (Z.land timeStep 0xff)) ;;
      timeBytes_loop i (Z.shiftr timeStep 8) timeBytes
  end.

(** [GenerateTOTP] generates an OTP value based on the [genTime]
    provided time. *)
Definition GenerateTOTP (t : pointer) (genTime : Z) : Go (string * error) :=
  step <- global StepSeconds ;;
  timeStep <- int_quo genTime step ;;
  timeBytes <- make 8 x00 ;;
  timeBytes <- timeBytes_loop 8 timeStep timeBytes ;;
  GenerateOTP t timeBytes.

(** [TokenFromBytes] generates a new OTP from an existing seed. *)
Definition TokenFromBytes (seedBytes : list byte) : Go (pointer * error) :=
  token <- new {| Seed := seedBytes;
                  Base32 := strings.ToUpper (base32.EncodeToString seedBytes) |} ;;
  ret (token, None).

Section Host.

(** The host: what the [k]-th reading of the wall clock returns, and
    the [k]-th number that the global generator, seeded with [seed],
    draws below a bound. *)
Variable wall : nat -> Time.
Variable source : Z -> nat -> Z -> Z.

Definition time_Now : Go Time :=
  fun w => Done (wall (clock_reads w), tick w).

Definition rand_Seed (seed : Z) : Go unit :=
  fun w => Done (tt, seeded seed w).

Definition rand_Intn (n : Z) : Go Z :=
  fun w =>
    if n <=? 0 then Panicked InvalidArgument
    else
      Done (source (rand_seed w) (rand_draws w) n,
            {| StepSeconds := StepSeconds w; SeedLength := SeedLength w;
               TokenLength := TokenLength w; heap := heap w;
               clock_reads := clock_reads w;
               rand_seed := rand_seed w; rand_draws := S (rand_draws w);
               randseednop := randseednop w |}).

(** The first loop of [VerifyChallenge]: [None] when it leaves the
    function with [return false], else the codes gathered. *)
Fixpoint otps_loop (t : pointer) (steps : list Z) (otps : list string)
    : Go (option (list string)) :=
  match steps with
  | [] => ret (Some otps)
  | step :: steps' =>
      now <- time_Now ;;
      let genTime := wrap64 (Unix now + step) in
      r <- GenerateTOTP t genTime ;;
      match snd r with
      | Some _ => ret None
      | None => otps_loop t steps' (otps ++ [fst r])%list
      end
  end.

(** The second loop: [true] at the first code equal to the
    challenge. *)
Fixpoint match_loop (otps : list string) (challenge : string) : bool :=
  match otps with
  | [] => false
  | otp :: otps' =>
      if String.eqb otp challenge then true else match_loop otps' challenge
  end.

(** [VerifyChallenge] verifies the [challenge] password; with [drift]
    it accepts the codes of the neighbouring steps as well. *)
Definition VerifyChallenge (t : pointer) (challenge : string) (drift : bool)
    : Go bool :=
  let otps : list string := [] in
  let steps := [0] in
  steps <-
    (if drift then
       step <- global StepSeconds ;;
       ret (steps ++ [wrap64 (-1 * step); step])%list
     else ret steps) ;;
  r <- otps_loop t steps otps ;;
  match r with
  | None => ret false
  | Some otps => ret (match_loop otps challenge)
  end.

(** The loop of [NewToken], [for i := range seedRunes]. *)
Fixpoint seedRunes_loop (range : list nat) (seedRunes : list Z) : Go (list Z) :=
  match range with
  | [] => ret seedRunes
  | i :: range' =>
      k <- rand_Intn (Z.of_nat (length runeCharacters)) ;;
      c <- index runeCharacters k ;;
      seedRunes <- store seedRunes (Z.of_nat i) c ;;
      seedRunes_loop range' seedRunes
  end.

(** [NewToken] generates a new OTP token with a random seed. *)
Definition NewToken : Go (pointer * error) :=
  now <- time_Now ;;
  _ <- rand_Seed (UnixNano now) ;;
  n <- global SeedLength ;;
  seedRunes <- make n 0 ;;
  seedRunes <- seedRunes_loop (seq 0 (length seedRunes)) seedRunes ;;
  let seedBytes := flat_map utf8 seedRunes in
  TokenFromBytes seedBytes.

(** The calls a client can make, and assignments to the package
    variables. *)
Inductive call :=
| CallGenerateOTP (t : pointer) (counterBytes : list byte)
| CallGenerateTOTP (t : pointer) (genTime : Z)
| CallVerifyChallenge (t : pointer) (challenge : string) (drift : bool)
| CallTokenFromBytes (seedBytes : list byte)
| CallNewToken
| Assign (stepSeconds seedLength tokenLength : Z).

Definition perform (c : call) : Go unit :=
  match c with
  | CallGenerateOTP t counterBytes => _ <- GenerateOTP t counterBytes ;; ret tt
  | CallGenerateTOTP t genTime => _ <- GenerateTOTP t genTime ;; ret tt
  | CallVerifyChallenge t challenge drift =>
      _ <- VerifyChallenge t challenge drift ;; ret tt
  | CallTokenFromBytes seedBytes => _ <- TokenFromBytes seedBytes ;; ret tt
  | CallNewToken => _ <- NewToken ;; ret tt
  | Assign stepSeconds seedLength tokenLength =>
      fun w =>
        Done (tt,
              {| StepSeconds := stepSeconds; SeedLength := seedLength;
                 TokenLength := tokenLength; heap := heap w;
                 clock_reads := clock_reads w;
                 rand_seed := rand_seed w; rand_draws := rand_draws w;
                 randseednop := randseednop w |})
  end.

End Host.

(** The test data of the package. *)
Definition testSeedBytes : list byte :=
  map to_byte [65; 66; 67; 68; 69; 70; 71; 72; 73; 74; 75; 76; 77; 78; 79; 80;
               81; 82; 83; 84].

Definition testTime : Z := 100000.

Definition bytes_of_string (s : string) : list byte :=
  map byte_of_ascii (list_ascii_of_string s).

(** ** The specification's Counter-OTP generator, in its own words *)

Module Spec.

(** [digest[i]], as a number. *)
Definition at_ (digest : list byte) (i : Z) : Z :=
  byte_val (nth (Z.to_nat i) digest x00).

(** Steps 2 to 4: the offset is the low nibble of the last byte; the
    four bytes from there, the first masked with 0x7F, combined
    big-endian. *)
Definition offset (digest : list byte) : Z := Z.land (at_ digest 19) 0x0F.

Definition binCode (digest : list byte) : Z :=
  let o := offset digest in
  Z.lor (Z.lor (Z.lor (Z.shiftl (Z.land (at_ digest o) 0x7F) 24)
                      (Z.shiftl (at_ digest (o + 1)) 16))
               (Z.shiftl (at_ digest (o + 2)) 8))
        (at_ digest (o + 3)).

(** Step 6: decimal, left-padded with zeroes to [codeLength] digits. *)
Definition render (codeLength : Z) (code : Z) : string :=
  let ds := fmt.decimal code in
  fmt.padding "0" (Z.to_nat codeLength - String.length ds) ++ ds.

(** Steps 1 to 6 together. *)
Definition generate (codeLength : Z) (secret counterBytes : list byte) : string :=
  render codeLength (binCode (HMAC.Sum secret counterBytes) mod 10 ^ codeLength).

(** An 8-byte big-endian counter. *)
Definition counter (step : Z) : list byte :=
  map (fun i => to_byte (step / 2 ^ (8 * Z.of_nat i))) (rev (seq 0 8)).

(** The number that a string of decimal digits denotes. *)
Fixpoint value_from (acc : Z) (s : string) : option Z :=
  match s with
  | EmptyString => Some acc
  | String c s' =>
      if fmt.is_digit c then value_from (10 * acc + fmt.digit_val c) s'
      else None
  end.

Definition value (s : string) : option Z := value_from 0 s.

Fixpoint all_digits (s : string) : bool :=
  match s with
  | EmptyString => true
  | String c s' => fmt.is_digit c && all_digits s'
  end.

End Spec.

(** ** RFC 4648, section 6, in its own words

    The octets are read as a stream of bits, most significant first;
    the stream is cut into groups of five bits, the last one filled with
    zero bits on the right; every group selects a character of the
    alphabet; [=] fills the output up to a multiple of eight
    characters. *)

Module RFC4648.

Definition bits (b : byte) : list bool :=
  let v := byte_val b in
  [Z.testbit v 7; Z.testbit v 6; Z.testbit v 5; Z.testbit v 4;
   Z.testbit v 3; Z.testbit v 2; Z.testbit v 1; Z.testbit v 0].

Definition group (b4 b3 b2 b1 b0 : bool) : Z :=
  16 * Z.b2z b4 + 8 * Z.b2z b3 + 4 * Z.b2z b2 + 2 * Z.b2z b1 + Z.b2z b0.

Fixpoint groups (bs : list bool) : list Z :=
  match bs with
  | [] => []
  | [b4] => [group b4 false false false false]
  | [b4; b3] => [group b4 b3 false false false]
  | [b4; b3; b2] => [group b4 b3 b2 false false]
  | [b4; b3; b2; b1] => [group b4 b3 b2 b1 false]
  | b4 :: b3 :: b2 :: b1 :: b0 :: rest => group b4 b3 b2 b1 b0 :: groups rest
  end.

Definition alphabet : list ascii :=
  list_ascii_of_string "ABCDEFGHIJKLMNOPQRSTUVWXYZ234567".

Definition char (v : Z) : ascii := nth (Z.to_nat v) alphabet "="%char.

Definition encode (src : list byte) : string :=
  let cs := map char (groups (flat_map bits src)) in
  string_of_list_ascii
    (cs ++ repeat "="%char ((8 - length cs mod 8) mod 8))%list.

End RFC4648.

(** ** Auxiliary notions of the properties *)

(** The invariant of a token: its display encoding is the base-32
    encoding of its secret, uppercased. *)
Definition encoded (tok : Token) : Prop :=
  Base32 tok = strings.ToUpper (RFC4648.encode (Seed tok)).

(** A computation that leaves every struct on the heap as it is, and
    allocates only tokens that satisfy the invariant. *)
Definition extends_heap {A : Type} (m : Go A) : Prop :=
  forall w r w', m w = Done (r, w') ->
    exists fresh, heap w' = (heap w ++ fresh)%list /\ Forall encoded fresh.

(** The code as [GenerateOTP] formats it from the truncated digest, and
    the code behind [GenerateTOTP] when it succeeds. *)
Definition otp_code (n : Z) (seed counterBytes : list byte) : string :=
  fmt.Sprintf (fmt.Sprintf "%%0%dd" [n])
    [Spec.binCode (HMAC.Sum seed counterBytes) mod 10 ^ n].

Definition totp (w : World) (tok : Token) (genTime : Z) : string :=
  otp_code (TokenLength w) (Seed tok)
    (Spec.counter (wrap64 (Z.quot genTime (StepSeconds w)))).

(** The flags of the directive [%0nd]. *)
Definition zero_flag : fmt.flags :=
  {| fmt.zero := true; fmt.minus := false; fmt.plus := false; fmt.space := false |}.

(** All 256 bytes. *)
Definition all_bytes : list byte := map (fun n => to_byte (Z.of_nat n)) (seq 0 256).

(** For two bytes [x] and [y], the characters that [base32.quantum]
    derives from them agree with the 5-bit groups of RFC 4648. *)
Definition quantum_chars_agree (x y : byte) : bool :=
  let tx := fun i => Z.testbit (byte_val x) i in
  let ty := fun i => Z.testbit (byte_val y) i in
  let vx := byte_val x in
  let vy := byte_val y in
  let same a b := Ascii.eqb a b in
  same (base32.sym (Z.shiftr vx 3))
       (RFC4648.char (RFC4648.group (tx 7) (tx 6) (tx 5) (tx 4) (tx 3)))
  && same (base32.sym (Z.lor (Z.land (Z.shiftr vy 6) 0x1F)
                             (Z.land (base32.u8 (Z.shiftl vx 2)) 0x1F)))
          (RFC4648.char (RFC4648.group (tx 2) (tx 1) (tx 0) (ty 7) (ty 6)))
  && same (base32.sym (Z.land (Z.shiftr vx 1) 0x1F))
          (RFC4648.char (RFC4648.group (tx 5) (tx 4) (tx 3) (tx 2) (tx 1)))
  && same (base32.sym (Z.lor (Z.land (Z.shiftr vy 4) 0x1F)
                             (Z.land (base32.u8 (Z.shiftl vx 4)) 0x1F)))
          (RFC4648.char (RFC4648.group (tx 0) (ty 7) (ty 6) (ty 5) (ty 4)))
  && same (base32.sym (Z.lor (Z.shiftr vy 7)
                             (Z.land (base32.u8 (Z.shiftl vx 1)) 0x1F)))
          (RFC4648.char (RFC4648.group (tx 3) (tx 2) (tx 1) (tx 0) (ty 7)))
  && same (base32.sym (Z.land (Z.shiftr vx 2) 0x1F))
          (RFC4648.char (RFC4648.group (tx 6) (tx 5) (tx 4) (tx 3) (tx 2)))
  && same (base32.sym (Z.lor (Z.shiftr vy 5)
                             (Z.land (base32.u8 (Z.shiftl vx 3)) 0x1F)))
          (RFC4648.char (RFC4648.group (tx 1) (tx 0) (ty 7) (ty 6) (ty 5)))
  && same (base32.sym (Z.land vx 0x1F))
          (RFC4648.char (RFC4648.group (tx 4) (tx 3) (tx 2) (tx 1) (tx 0))).

(** Hexadecimal rendering, for the published digests. *)
Definition hex_digit (n : Z) : ascii :=
  ascii_of_nat (Z.to_nat (if n <? 10 then 48 + n else 87 + n)).

Definition hex (bs : list byte) : string :=
  string_of_list_ascii
    (flat_map (fun b => [hex_digit (byte_val b / 16); hex_digit (byte_val b mod 16)]) bs).

(** The process state of the test vectors of RFC 4226 and RFC 6238: one
    token with the secret "12345678901234567890". *)
Definition rfc_world (tokenLength : Z) : World :=
  {| StepSeconds := 30; SeedLength := 20; TokenLength := tokenLength;
     heap := [{| Seed := bytes_of_string "12345678901234567890";
                 Base32 := "GEZDGNBVGY3TQOJQGEZDGNBVGY3TQOJQ" |}];
     clock_reads := 0; rand_seed := 1; rand_draws := 0;
     randseednop := false |}.

(** A wall clock that stands still at [t] seconds. *)
Definition frozen (t : Z) : nat -> Time :=
  fun _ => {| Unix := t; UnixNano := t * 10 ^ 9 |}.

(** A random source that always draws 0. *)
Definition constant_source : Z -> nat -> Z -> Z := fun _ _ _ => 0.

(** The token of the package's tests, and the process state once it is
    constructed. *)
Definition testToken : Token :=
  {| Seed := testSeedBytes; Base32 := "IFBEGRCFIZDUQSKKJNGE2TSPKBIVEU2U" |}.

Definition test_world : World :=
  {| StepSeconds := 30; SeedLength := 20; TokenLength := 6;
     heap := [testToken]; clock_reads := 0; rand_seed := 1; rand_draws := 0;
     randseednop := false |}.

(** ** Notions of the further properties *)

(** [runeCharacters[k]], as [NewToken] reads it once the index is known
    to be in range. *)
Definition rune_at (k : Z) : Z := nth (Z.to_nat k) runeCharacters 0.

(** The process state after [n] more draws from the global generator. *)
Definition drawn (n : nat) (w : World) : World :=
  {| StepSeconds := StepSeconds w; SeedLength := SeedLength w;
     TokenLength := TokenLength w; heap := heap w;
     clock_reads := clock_reads w;
     rand_seed := rand_seed w; rand_draws := (rand_draws w + n)%nat;
     randseednop := randseednop w |}.

(** A token without a seed, and a process state with chosen package
    variables that holds the test token (at 0) and the seedless one
    (at 1). *)
Definition seedless : Token := {| Seed := []; Base32 := "" |}.

Definition configured (stepSeconds tokenLength : Z) : World :=
  {| StepSeconds := stepSeconds; SeedLength := 20; TokenLength := tokenLength;
     heap := [testToken; seedless]; clock_reads := 0;
     rand_seed := 1; rand_draws := 0;
     randseednop := false |}.

(** What a call returns or how it panics, without the process state it
    leaves. *)
Definition result_of {A : Type} (o : outcome (A * World)) : outcome A :=
  match o with
  | Done (x, _) => Done x
  | Panicked p => Panicked p
  end.

(** The characters of a string satisfy [P]. *)
Definition all_chars (P : ascii -> Prop) (s : string) : Prop :=
  List.Forall P (list_ascii_of_string s).

(** * Properties *)

(** ** Bytes and machine integers *)

Lemma byte_val_range (b : byte) : 0 <= byte_val b < 256.
Proof.
  unfold byte_val. pose proof (Byte.to_N_bounded b). lia.
Qed.

Lemma byte_val_to_byte (z : Z) : byte_val (to_byte z) = z mod 256.
Proof.
  unfold to_byte, byte_val.
  assert (Hr : 0 <= z mod 256 < 256) by (apply Z.mod_pos_bound; lia).
  destruct (Byte.of_N (Z.to_N (z mod 256))) as [b|] eqn:E.
  - apply Byte.to_of_N in E. rewrite E. lia.
  - apply Byte.of_N_None_iff in E. lia.
Qed.

Lemma to_byte_mod (z : Z) : to_byte (z mod 256) = to_byte z.
Proof. unfold to_byte. now rewrite Z.mod_mod by lia. Qed.

Lemma wrap64_id (z : Z) : in_int64 z -> wrap64 z = z.
Proof.
  unfold in_int64, min_int64, max_int64, wrap64. intros H.
  rewrite Z.mod_small; lia.
Qed.

Lemma wrap64_range (z : Z) : in_int64 (wrap64 z).
Proof.
  unfold in_int64, min_int64, max_int64, wrap64.
  pose proof (Z.mod_pos_bound (z + 2 ^ 63) (2 ^ 64)). lia.
Qed.

(** ** The digest has twenty bytes *)

Lemma be_bytes_length (n : nat) (z : Z) : length (SHA1.be_bytes n z) = n.
Proof.
  unfold SHA1.be_bytes. now rewrite length_map, length_rev, length_seq.
Qed.

Lemma SHA1_Sum_length (data : list byte) : length (SHA1.Sum data) = SHA1.Size.
Proof.
  unfold SHA1.Sum, SHA1.digest_bytes.
  destruct (SHA1.blocks _ _ _) as [[[[h0 h1] h2] h3] h4].
  now rewrite length_map, !length_app, !be_bytes_length.
Qed.

Lemma HMAC_Sum_length (key message : list byte) :
  length (HMAC.Sum key message) = 20%nat.
Proof. unfold HMAC.Sum. apply SHA1_Sum_length. Qed.

(** ** Published test vectors *)

Example SHA1_abc :
  hex (SHA1.Sum (bytes_of_string "abc")) = "a9993e364706816aba3e25717850c26c9cd0d89d".
Proof. vm_compute. reflexivity. Qed.

Example SHA1_empty :
  hex (SHA1.Sum []) = "da39a3ee5e6b4b0d3255bfef95601890afd80709".
Proof. vm_compute. reflexivity. Qed.

Example SHA1_two_blocks :
  hex (SHA1.Sum (bytes_of_string
         "abcdbcdecdefdefgefghfghighijhijkijkljklmklmnlmnomnopnopq"))
  = "84983e441c3bd26ebaae4aa1f95129e5e54670f1".
Proof. vm_compute. reflexivity. Qed.

(** RFC 2202, section 3, cases 1, 2 and 6. *)
Example HMAC_case_1 :
  hex (HMAC.Sum (repeat x0b 20) (bytes_of_string "Hi There"))
  = "b617318655057264e28bc0b6fb378c8ef146be00".
Proof. vm_compute. reflexivity. Qed.

Example HMAC_case_2 :
  hex (HMAC.Sum (bytes_of_string "Jefe") (bytes_of_string "what do ya want for nothing?"))
  = "effcdf6ae5eb2fa2d27416d5f184df9c259a7c79".
Proof. vm_compute. reflexivity. Qed.

Example HMAC_case_6 :
  hex (HMAC.Sum (repeat xaa 80)
         (bytes_of_string "Test Using Larger Than Block-Size Key - Hash Key First"))
  = "aa4ae5e15272d00e95705637ce8a3b55ed402112".
Proof. vm_compute. reflexivity. Qed.

(** RFC 4648, section 10. *)
Example base32_vectors :
  map (fun s => base32.EncodeToString (bytes_of_string s))
    [""; "f"; "fo"; "foo"; "foob"; "fooba"; "foobar"]
  = [""; "MY======"; "MZXQ===="; "MZXW6==="; "MZXW6YQ="; "MZXW6YTB";
     "MZXW6YTBOI======"].
Proof. vm_compute. reflexivity. Qed.

(** RFC 4226, appendix D: the codes of the counters 0 to 9. *)
Example HOTP_vectors :
  map (fun c => GenerateOTP (addr 0) (Spec.counter c) (rfc_world 6))
    [0; 1; 2; 3; 4; 5; 6; 7; 8; 9]
  = map (fun code => Done (code, None, rfc_world 6))
      ["755224"; "287082"; "359152"; "969429"; "338314"; "254676"; "287922";
       "162583"; "399871"; "520489"].
Proof. vm_compute. reflexivity. Qed.

(** RFC 6238, appendix B (SHA-1, eight digits). *)
Example TOTP_vectors :
  map (fun t => GenerateTOTP (addr 0) t (rfc_world 8))
    [59; 1111111109; 1111111111; 1234567890; 2000000000; 20000000000]
  = map (fun code => Done (code, None, rfc_world 8))
      ["94287082"; "07081804"; "14050471"; "89005924"; "69279037"; "65353130"].
Proof. vm_compute. reflexivity. Qed.

(** Formats the way [fmt] documents them. *)
Example Sprintf_vectors :
  fmt.Sprintf "%%0%dd" [6] = "%06d" /\
  fmt.Sprintf "%06d" [42] = "000042" /\
  fmt.Sprintf "%06d" [-42] = "-00042" /\
  fmt.Sprintf "%6d|%-6d|%+d|% d" [42; 42; 42; 42] = "    42|42    |+42| 42" /\
  fmt.Sprintf "%00d" [0] = "0" /\
  fmt.Sprintf "%d" [] = "%!d(MISSING)" /\
  fmt.Sprintf "%d" [1; 2] = "1%!(EXTRA int=2)" /\
  fmt.Sprintf "%" [] = "%!(NOVERB)" /\
  fmt.Sprintf "%z" [42] = "%!z(int=42)".
Proof. vm_compute. repeat split. Qed.

(** A width of more than 10^6 is not read: the directive loses its verb
    and the rest of the format is dropped. *)
Example Sprintf_width_cap :
  fmt.Sprintf "%010000010d" [5] = "%!(NOVERB)%!(EXTRA int=5)" /\
  fmt.Sprintf "%010000010d, and more" [5] = "%!(NOVERB)%!(EXTRA int=5)" /\
  fmt.Sprintf "x%99999999d" [] = "x%!(NOVERB)".
Proof. vm_compute. repeat split. Qed.

(** ** Decimal rendering ([fmt]) *)

Lemma append_nil_r (s : string) : (s ++ "")%string = s.
Proof. induction s as [|c s IH]; simpl; [reflexivity | now rewrite IH]. Qed.

Lemma append_assoc (s1 s2 s3 : string) :
  ((s1 ++ s2) ++ s3)%string = (s1 ++ (s2 ++ s3))%string.
Proof. induction s1 as [|c s1 IH]; simpl; [reflexivity | now rewrite IH]. Qed.

Lemma append_length (s1 s2 : string) :
  String.length (s1 ++ s2) = (String.length s1 + String.length s2)%nat.
Proof. induction s1 as [|c s1 IH]; simpl; [reflexivity | now rewrite IH]. Qed.

Lemma padding_length (c : ascii) (n : nat) : String.length (fmt.padding c n) = n.
Proof. induction n as [|n IH]; simpl; [reflexivity | now rewrite IH]. Qed.

Ltac digit_cases d :=
  let H := fresh in
  assert (H : d = 0 \/ d = 1 \/ d = 2 \/ d = 3 \/ d = 4 \/ d = 5 \/ d = 6
              \/ d = 7 \/ d = 8 \/ d = 9) by lia;
  repeat (destruct H as [H|H]); rewrite H.

Lemma is_digit_digit (d : Z) : 0 <= d < 10 -> fmt.is_digit (fmt.digit d) = true.
Proof. intros Hd. digit_cases d; reflexivity. Qed.

Lemma digit_val_digit (d : Z) : 0 <= d < 10 -> fmt.digit_val (fmt.digit d) = d.
Proof. intros Hd. digit_cases d; reflexivity. Qed.

Lemma set_flag_digit (fl : fmt.flags) (d : Z) :
  1 <= d < 10 -> fmt.set_flag fl (fmt.digit d) = None.
Proof. intros Hd. digit_cases d; try reflexivity; lia. Qed.

Lemma digits_acc (fuel : nat) (u : Z) (buf : string) :
  fmt.digits fuel u buf = (fmt.digits fuel u "" ++ buf)%string.
Proof.
  revert u buf. induction fuel as [|fuel IH]; intros u buf; simpl.
  - reflexivity.
  - destruct (10 <=? u).
    + rewrite IH. rewrite (IH _ (String _ "")). now rewrite append_assoc.
    + reflexivity.
Qed.

(** Fuel beyond the number of binary digits changes nothing. *)
Lemma digits_fuel (f1 f2 : nat) (u : Z) (buf : string) :
  0 <= u < 2 ^ Z.of_nat (S f1) -> u < 2 ^ Z.of_nat (S f2) ->
  fmt.digits (S f1) u buf = fmt.digits (S f2) u buf.
Proof.
  revert f2 u buf. induction f1 as [|f1 IH]; intros f2 u buf H1 H2;
    cbn [fmt.digits]; destruct (10 <=? u) eqn:E; try reflexivity;
    apply Z.leb_le in E.
  - change (2 ^ Z.of_nat 1) with 2 in H1. lia.
  - destruct f2 as [|f2].
    + change (2 ^ Z.of_nat 1) with 2 in H2. lia.
    + rewrite Nat2Z.inj_succ, Z.pow_succ_r in H1, H2 by lia.
      pose proof (Z.div_pos u 10).
      apply IH.
      * split; [lia|]. apply Z.div_lt_upper_bound; lia.
      * apply Z.div_lt_upper_bound; lia.
Qed.

Lemma log2_fuel (u : Z) : 0 <= u -> u < 2 ^ Z.of_nat (S (Z.to_nat (Z.log2 u))).
Proof.
  intros Hu. rewrite Nat2Z.inj_succ, Z2Nat.id by apply Z.log2_nonneg.
  destruct (Z.eq_dec u 0) as [->|]; [reflexivity|].
  apply Z.log2_spec. lia.
Qed.

Lemma decimal_small (u : Z) : 0 <= u < 10 -> fmt.decimal u = String (fmt.digit u) "".
Proof.
  intros Hu. unfold fmt.decimal. cbn [fmt.digits].
  destruct (10 <=? u) eqn:E; [apply Z.leb_le in E; lia | reflexivity].
Qed.

Lemma decimal_step (u : Z) :
  10 <= u ->
  fmt.decimal u = (fmt.decimal (u / 10) ++ String (fmt.digit (u mod 10)) "")%string.
Proof.
  intros Hu. unfold fmt.decimal at 1. cbn [fmt.digits].
  destruct (10 <=? u) eqn:E; [|apply Z.leb_gt in E; lia].
  assert (H3 : 3 <= Z.log2 u) by (apply (Z.log2_le_mono 8 u); lia).
  destruct (Z.to_nat (Z.log2 u)) as [|f] eqn:Ef; [lia|].
  rewrite digits_acc. f_equal. unfold fmt.decimal.
  pose proof (Z.div_pos u 10).
  pose proof (log2_fuel u) as Hf. rewrite Ef in Hf.
  rewrite Nat2Z.inj_succ, Z.pow_succ_r in Hf by lia.
  apply digits_fuel.
  - split; [lia|]. apply Z.div_lt_upper_bound; lia.
  - apply log2_fuel. lia.
Qed.

(** Induction along the decimal digits of a number. *)
Lemma decimal_ind (P : Z -> Prop) :
  (forall u, 0 <= u < 10 -> P u) ->
  (forall u, 10 <= u -> P (u / 10) -> P u) ->
  forall u, 0 <= u -> P u.
Proof.
  intros Hsmall Hstep u Hu.
  induction u as [u IH] using (well_founded_induction (Z.lt_wf 0)).
  destruct (Z_lt_le_dec u 10) as [Hlt|Hge].
  - apply Hsmall. lia.
  - apply Hstep; [assumption|]. 
    assert (u / 10 < u) by (apply Z.div_lt; lia).
    pose proof (Z.div_pos u 10).
    apply IH; lia.
Qed.

Lemma all_digits_app (s1 s2 : string) :
  Spec.all_digits (s1 ++ s2) = Spec.all_digits s1 && Spec.all_digits s2.
Proof.
  induction s1 as [|c s1 IH]; simpl; [reflexivity|].
  now rewrite IH, andb_assoc.
Qed.

Lemma decimal_all_digits (u : Z) : 0 <= u -> Spec.all_digits (fmt.decimal u) = true.
Proof.
  revert u. apply decimal_ind.
  - intros u Hu. rewrite decimal_small by assumption. simpl.
    now rewrite is_digit_digit.
  - intros u Hu IH. rewrite decimal_step, all_digits_app, IH by assumption. simpl.
    rewrite is_digit_digit; [reflexivity|]. apply Z.mod_pos_bound. lia.
Qed.

Lemma decimal_length (u : Z) :
  0 <= u -> forall k, 1 <= k -> u < 10 ^ k -> Z.of_nat (String.length (fmt.decimal u)) <= k.
Proof.
  revert u. apply (decimal_ind (fun u => forall k, 1 <= k -> u < 10 ^ k ->
    Z.of_nat (String.length (fmt.decimal u)) <= k)).
  - intros u Hu k Hk _. rewrite decimal_small by assumption. simpl. lia.
  - intros u Hu IH k Hk Hlt.
    assert (k <> 1) by (intros ->; change (10 ^ 1) with 10 in Hlt; lia).
    replace k with (Z.succ (k - 1)) in Hlt by lia.
    rewrite Z.pow_succ_r in Hlt by lia.
    rewrite decimal_step, append_length by assumption. simpl.
    assert (u / 10 < 10 ^ (k - 1)) by (apply Z.div_lt_upper_bound; lia).
    specialize (IH (k - 1)). lia.
Qed.

Lemma value_from_snoc (s : string) (c : ascii) (acc : Z) :
  fmt.is_digit c = true ->
  Spec.value_from acc (s ++ String c "") =
  option_map (fun v => 10 * v + fmt.digit_val c) (Spec.value_from acc s).
Proof.
  intros Hc. revert acc. induction s as [|c' s IH]; intros acc; simpl.
  - now rewrite Hc.
  - destruct (fmt.is_digit c'); [apply IH | reflexivity].
Qed.

Lemma value_decimal (u : Z) : 0 <= u -> Spec.value (fmt.decimal u) = Some u.
Proof.
  unfold Spec.value. revert u. apply decimal_ind.
  - intros u Hu. rewrite decimal_small by assumption. simpl.
    rewrite is_digit_digit, digit_val_digit by assumption. f_equal; lia.
  - intros u Hu IH.
    assert (Hm : 0 <= u mod 10 < 10) by (apply Z.mod_pos_bound; lia).
    rewrite decimal_step, value_from_snoc, IH by auto using is_digit_digit.
    simpl. rewrite digit_val_digit by assumption. f_equal.
    rewrite (Z.div_mod u 10) at 3 by lia. reflexivity.
Qed.

Lemma value_zero_padding (n : nat) (s : string) :
  Spec.value (fmt.padding "0" n ++ s) = Spec.value s.
Proof.
  unfold Spec.value. induction n as [|n IH]; simpl; [reflexivity | exact IH].
Qed.

(** The width of a directive is read back from its decimal rendering,
    as long as no proper prefix of it exceeds 10^6. *)
Lemma doPrintf_width (fl : fmt.flags) (n : Z) :
  0 < n <= 10000009 ->
  forall rest a,
    fmt.doPrintf (fmt.Flags fl) (fmt.decimal n ++ rest) a =
    fmt.doPrintf (fmt.Width fl n) rest a.
Proof.
  intros Hn. assert (H0 : 0 <= n) by lia. revert n H0 Hn.
  apply (decimal_ind (fun n => 0 < n <= 10000009 -> forall rest a,
    fmt.doPrintf (fmt.Flags fl) (fmt.decimal n ++ rest) a =
    fmt.doPrintf (fmt.Width fl n) rest a)).
  - intros n Hn Hpos rest a. rewrite decimal_small by assumption. simpl.
    rewrite set_flag_digit, is_digit_digit, digit_val_digit by lia. reflexivity.
  - intros n Hn IH Hb rest a.
    assert (Hm : 0 <= n mod 10 < 10) by (apply Z.mod_pos_bound; lia).
    assert (0 < n / 10) by (apply Z.div_str_pos; lia).
    assert (Hq : n / 10 < 1000001) by (apply Z.div_lt_upper_bound; lia).
    rewrite decimal_step, append_assoc, IH by (assumption || lia).
    cbn [append fmt.doPrintf].
    rewrite is_digit_digit by assumption. unfold fmt.tooLarge.
    destruct (1000000 <? n / 10) eqn:E1; [apply Z.ltb_lt in E1; lia|].
    destruct (n / 10 <? -1000000) eqn:E2; [apply Z.ltb_lt in E2; lia|].
    cbn [orb]. rewrite digit_val_digit by assumption.
    rewrite <- (Z.div_mod n 10) by lia. reflexivity.
Qed.

(** The format that [GenerateOTP] builds for a non-negative length. *)
Lemma Sprintf_format (n : Z) :
  0 <= n -> fmt.Sprintf "%%0%dd" [n] = ("%0" ++ fmt.decimal n ++ "d")%string.
Proof.
  intros Hn.
  change (fmt.Sprintf "%%0%dd" [n])
    with ("%0" ++ fmt.fmtInteger fmt.no_flags None n ++ "d")%string.
  unfold fmt.fmtInteger.
  destruct (n <? 0) eqn:E; [apply Z.ltb_lt in E; lia|].
  cbn [fmt.plus fmt.space fmt.no_flags orb Nat.sub Z.to_nat fmt.padding append].
  now rewrite Z.abs_eq.
Qed.

(** Zero-padded rendering: what [%0nd] yields for a non-negative
    operand. *)
Lemma Sprintf_zero_padded (n v : Z) :
  0 < n <= 10000009 -> 0 <= v ->
  fmt.Sprintf (fmt.Sprintf "%%0%dd" [n]) [v] = Spec.render n v.
Proof.
  intros Hn Hv. rewrite Sprintf_format by lia.
  change (fmt.Sprintf ("%0" ++ fmt.decimal n ++ "d") [v])
    with (fmt.doPrintf (fmt.Flags zero_flag) (fmt.decimal n ++ "d") [v]).
  rewrite doPrintf_width by assumption.
  change (fmt.doPrintf (fmt.Width zero_flag n) "d" [v])
    with (fmt.fmtInteger zero_flag (Some n) v ++ "")%string.
  rewrite append_nil_r. unfold fmt.fmtInteger, Spec.render.
  destruct (v <? 0) eqn:E; [apply Z.ltb_lt in E; lia|].
  cbn [fmt.zero fmt.minus fmt.plus fmt.space zero_flag andb orb negb append].
  rewrite Z.abs_eq by assumption.
  set (body := (fmt.padding "0" _ ++ fmt.decimal v)%string).
  replace (Z.to_nat n - String.length body)%nat with O.
  - reflexivity.
  - subst body. rewrite append_length, padding_length. lia.
Qed.

Lemma Sprintf_code (n v : Z) :
  0 <= n <= 10000009 -> 0 <= v < 10 ^ n ->
  fmt.Sprintf (fmt.Sprintf "%%0%dd" [n]) [v] = Spec.render n v.
Proof.
  intros Hn Hv. destruct (Z.eq_dec n 0) as [->|Hn0].
  - change (10 ^ 0) with 1 in Hv. assert (v = 0) by lia. now subst v.
  - apply Sprintf_zero_padded; lia.
Qed.

Lemma render_length (n v : Z) :
  0 < n -> 0 <= v < 10 ^ n -> String.length (Spec.render n v) = Z.to_nat n.
Proof.
  intros Hn Hv. unfold Spec.render. rewrite append_length, padding_length.
  pose proof (decimal_length v (proj1 Hv) n). lia.
Qed.

Lemma padding_all_digits (n : nat) : Spec.all_digits (fmt.padding "0" n) = true.
Proof. induction n as [|n IH]; [reflexivity | exact IH]. Qed.

Lemma render_all_digits (n v : Z) : 0 <= v -> Spec.all_digits (Spec.render n v) = true.
Proof.
  intros Hv. unfold Spec.render.
  now rewrite all_digits_app, padding_all_digits, decimal_all_digits.
Qed.

Lemma render_value (n v : Z) : 0 <= v -> Spec.value (Spec.render n v) = Some v.
Proof.
  intros Hv. unfold Spec.render. rewrite value_zero_padding. now apply value_decimal.
Qed.

(** ** Dynamic truncation *)

Lemma lor_bound (n a b : Z) :
  0 <= n -> 0 <= a < 2 ^ n -> 0 <= b < 2 ^ n -> 0 <= Z.lor a b < 2 ^ n.
Proof.
  intros Hn Ha Hb.
  assert (H0 : 0 <= Z.lor a b) by (apply Z.lor_nonneg; lia).
  split; [assumption|].
  destruct (Z.eq_dec (Z.lor a b) 0) as [->|Hnz]; [lia|].
  apply Z.log2_lt_pow2; [lia|]. rewrite Z.log2_lor by lia.
  destruct (Z.eq_dec a 0) as [->|]; destruct (Z.eq_dec b 0) as [->|];
    try (rewrite Z.lor_0_l in Hnz || rewrite Z.lor_0_r in Hnz); try lia.
  - rewrite Z.max_r by apply Z.log2_nonneg. apply Z.log2_lt_pow2; lia.
  - rewrite Z.max_l by apply Z.log2_nonneg. apply Z.log2_lt_pow2; lia.
  - apply Z.max_lub_lt; apply Z.log2_lt_pow2; lia.
Qed.

Lemma land_byte_mask (b : byte) : Z.land (byte_val b) 0xFF = byte_val b.
Proof.
  change 0xFF with (Z.ones 8). rewrite Z.land_ones by lia.
  apply Z.mod_small. apply byte_val_range.
Qed.

Lemma land_range (x m : Z) : 0 <= x -> 0 <= m -> 0 <= Z.land x m <= m.
Proof.
  intros Hx Hm. split; [apply Z.land_nonneg; lia|].
  destruct (Z.eq_dec m 0) as [->|]; [rewrite Z.land_0_r; lia|].
  destruct (Z.eq_dec (Z.land x m) 0) as [->|]; [lia|].
  assert (H : Z.land x m = Z.land (Z.land x m) m).
  { now rewrite <- Z.land_assoc, Z.land_diag. }
  pose proof (Z.land_nonneg x m).
  apply Z.bits_inj_iff in H.
  destruct (Z_le_gt_dec (Z.land x m) m) as [|Hgt]; [assumption|exfalso].
  assert (Hsub : Z.ldiff (Z.land x m) m = 0).
  { apply Z.bits_inj_0. intros i. rewrite Z.ldiff_spec, Z.land_spec.
    destruct (Z.testbit x i), (Z.testbit m i); reflexivity. }
  apply Z.ldiff_le in Hsub; lia.
Qed.

Lemma binCode_range (digest : list byte) : 0 <= Spec.binCode digest < 2 ^ 31.
Proof.
  unfold Spec.binCode.
  set (o := Spec.offset digest).
  unfold Spec.at_.
  pose proof (byte_val_range (nth (Z.to_nat o) digest x00)) as H0.
  pose proof (byte_val_range (nth (Z.to_nat (o + 1)) digest x00)) as H1.
  pose proof (byte_val_range (nth (Z.to_nat (o + 2)) digest x00)) as H2.
  pose proof (byte_val_range (nth (Z.to_nat (o + 3)) digest x00)) as H3.
  pose proof (land_range (byte_val (nth (Z.to_nat o) digest x00)) 0x7F) as Hm.
  rewrite !Z.shiftl_mul_pow2 by lia.
  repeat apply lor_bound; lia.
Qed.

Lemma offset_range (digest : list byte) : 0 <= Spec.offset digest <= 15.
Proof.
  unfold Spec.offset, Spec.at_. apply land_range; [apply byte_val_range | lia].
Qed.

(** ** The runtime operations *)

Lemma lookup_nth (digest : list byte) (i : nat) :
  (i < length digest)%nat -> digest !! i = Some (nth i digest x00).
Proof.
  revert i. induction digest as [|b digest IH]; intros [|i] Hi; simpl in *;
    try lia; [reflexivity | apply IH; lia].
Qed.

Lemma index_Done (digest : list byte) (i : Z) (w : World) :
  0 <= i < Z.of_nat (length digest) ->
  index digest i w = Done (nth (Z.to_nat i) digest x00, w).
Proof.
  intros Hi. unfold index.
  destruct (i <? 0) eqn:E; [apply Z.ltb_lt in E; lia|].
  rewrite lookup_nth by lia. reflexivity.
Qed.

Lemma load_addr (a : nat) (tok : Token) (w : World) :
  heap w !! a = Some tok -> load (addr a) w = Done (tok, w).
Proof. intros H. unfold load. now rewrite H. Qed.

Lemma int_rem_Pow10 (otp n : Z) (w : World) :
  0 <= otp < 2 ^ 31 -> 0 <= n ->
  int_rem otp (int_Pow10 n) w = Done (otp mod 10 ^ n, w).
Proof.
  intros Hotp Hn. unfold int_rem, int_Pow10.
  destruct (n <? 0) eqn:E0; [apply Z.ltb_lt in E0; lia|].
  destruct (n <=? 18) eqn:E1.
  - apply Z.leb_le in E1.
    assert (Hp : 0 < 10 ^ n) by (apply Z.pow_pos_nonneg; lia).
    destruct (10 ^ n =? 0) eqn:E2; [apply Z.eqb_eq in E2; lia|].
    unfold ret. rewrite Z.rem_mod_nonneg by lia.
    pose proof (Z.mod_pos_bound otp (10 ^ n) Hp).
    assert (otp mod 10 ^ n <= otp) by (apply Z.mod_le; lia).
    rewrite wrap64_id; [reflexivity|]. unfold in_int64, min_int64, max_int64. lia.
  - apply Z.leb_gt in E1. change (min_int64 =? 0) with false. unfold ret.
    change min_int64 with (- 2 ^ 63). rewrite Z.rem_opp_r by lia.
    rewrite Z.rem_small by lia.
    assert (10 ^ 19 <= 10 ^ n) by (apply Z.pow_le_mono_r; lia).
    rewrite Z.mod_small by lia.
    rewrite wrap64_id; [reflexivity|]. unfold in_int64, min_int64, max_int64. lia.
Qed.

Lemma int_shl_small (x k : Z) :
  0 <= x < 256 -> 0 <= k <= 24 -> int_shl x k = Z.shiftl x k.
Proof.
  intros Hx Hk. unfold int_shl. apply wrap64_id.
  rewrite Z.shiftl_mul_pow2 by lia.
  assert (0 < 2 ^ k <= 2 ^ 24) by (split; [apply Z.pow_pos_nonneg; lia | apply Z.pow_le_mono_r; lia]).
  unfold in_int64, min_int64, max_int64. nia.
Qed.

(** ** GenerateOTP follows the specification's algorithm *)

(** With a seed and a counter, [GenerateOTP] reaches the remainder with
    the truncated digest, whatever [TokenLength] holds. *)
Lemma GenerateOTP_truncate (w : World) (a : nat) (tok : Token) (counterBytes : list byte) :
  heap w !! a = Some tok -> Seed tok <> [] -> counterBytes <> [] ->
  GenerateOTP (addr a) counterBytes w =
  (otp <- int_rem (Spec.binCode (HMAC.Sum (Seed tok) counterBytes))
            (int_Pow10 (TokenLength w)) ;;
   ret (fmt.Sprintf (fmt.Sprintf "%%0%dd" [TokenLength w]) [otp], None)) w.
Proof.
  intros Hload Hseed Hctr. unfold GenerateOTP.
  unfold bind at 1. rewrite (load_addr _ _ _ Hload).
  destruct (Seed tok) as [|s0 seed] eqn:Eseed; [congruence|].
  destruct counterBytes as [|c0 ctr] eqn:Ectr; [congruence|].
  cbn [length Nat.eqb]. rewrite <- Eseed, <- Ectr.
  set (hmac := HMAC.Sum (Seed tok) counterBytes).
  assert (Hl : length hmac = 20%nat) by apply HMAC_Sum_length.
  pose proof (offset_range hmac) as Hoff.
  unfold bind at 1. rewrite index_Done by lia.
  rewrite Hl. change (Z.to_nat (Z.of_nat 20 - 1)) with 19%nat.
  change (Z.land (byte_val (nth 19 hmac x00)) 0xF) with (Spec.offset hmac).
  set (o := Spec.offset hmac) in *.
  do 4 (unfold bind at 1; rewrite index_Done by lia).
  unfold bind at 1, global at 1.
  rewrite !land_byte_mask.
  pose proof (land_range (byte_val (nth (Z.to_nat o) hmac x00)) 0x7F
                (proj1 (byte_val_range _))) as Hm.
  rewrite !int_shl_small by (try apply byte_val_range; lia).
  reflexivity.
Qed.

Lemma GenerateOTP_generate (w : World) (a : nat) (tok : Token) (counterBytes : list byte) :
  heap w !! a = Some tok -> Seed tok <> [] -> counterBytes <> [] ->
  0 <= TokenLength w ->
  GenerateOTP (addr a) counterBytes w =
  Done (otp_code (TokenLength w) (Seed tok) counterBytes, None, w).
Proof.
  intros Hload Hseed Hctr Hlen. rewrite (GenerateOTP_truncate w a tok) by assumption.
  pose proof (binCode_range (HMAC.Sum (Seed tok) counterBytes)) as Hb.
  unfold bind. rewrite int_rem_Pow10 by assumption. reflexivity.
Qed.

(** Up to the largest width that [fmt] reads, the code is the
    specification's. *)
Lemma otp_code_generate (n : Z) (seed counterBytes : list byte) :
  0 <= n <= 10000009 ->
  otp_code n seed counterBytes = Spec.generate n seed counterBytes.
Proof.
  intros Hn. unfold otp_code, Spec.generate.
  assert (Hp : 0 < 10 ^ n) by (apply Z.pow_pos_nonneg; lia).
  apply Sprintf_code; [assumption | apply Z.mod_pos_bound; lia].
Qed.

(** A negative [TokenLength] makes the modulus 0. *)
Lemma GenerateOTP_negative_length (w : World) (a : nat) (tok : Token)
    (counterBytes : list byte) :
  heap w !! a = Some tok -> Seed tok <> [] -> counterBytes <> [] ->
  TokenLength w < 0 ->
  GenerateOTP (addr a) counterBytes w = Panicked DivideByZero.
Proof.
  intros Hload Hseed Hctr Hlen. rewrite (GenerateOTP_truncate w a tok) by assumption.
  unfold bind, int_rem, int_Pow10.
  destruct (TokenLength w <? 0) eqn:E; [reflexivity | apply Z.ltb_ge in E; lia].
Qed.

(** ** GenerateTOTP: the counter *)

Lemma to_byte_land (x : Z) : to_byte (Z.land x 0xff) = to_byte x.
Proof.
  change 0xff with (Z.ones 8). rewrite Z.land_ones by lia. apply to_byte_mod.
Qed.

Lemma timeBytes_loop_8 (timeStep : Z) (w : World) :
  timeBytes_loop 8 timeStep (replicate 8 x00) w = Done (Spec.counter timeStep, w).
Proof.
  cbn -[Z.land Z.shiftr to_byte Z.pow Z.div].
  unfold bind, store, ret. cbn -[Z.land Z.shiftr to_byte Z.pow Z.div].
  rewrite !Z.shiftr_shiftr, !to_byte_land, !Z.shiftr_div_pow2 by lia.
  rewrite Z.div_1_r. reflexivity.
Qed.

Lemma GenerateTOTP_counter (w : World) (t : pointer) (genTime : Z) :
  StepSeconds w <> 0 ->
  GenerateTOTP t genTime w =
  GenerateOTP t (Spec.counter (wrap64 (Z.quot genTime (StepSeconds w)))) w.
Proof.
  intros Hs. unfold GenerateTOTP, bind at 1, global at 1.
  unfold bind at 1, int_quo.
  destruct (StepSeconds w =? 0) eqn:E; [apply Z.eqb_eq in E; contradiction|].
  unfold ret at 1. unfold bind at 1, make. cbn [Z.ltb Z.compare ret].
  change (Z.to_nat 8) with 8%nat.
  unfold bind. now rewrite timeBytes_loop_8.
Qed.

Lemma wrap64_quot (genTime step : Z) :
  in_int64 genTime -> 0 < step -> wrap64 (Z.quot genTime step) = Z.quot genTime step.
Proof.
  intros Hg Hs. apply wrap64_id. unfold in_int64, min_int64, max_int64 in *.
  destruct (Z_le_gt_dec 0 genTime) as [Hpos|Hneg].
  - pose proof (Z.quot_pos genTime step Hpos Hs).
    assert (Z.quot genTime step <= genTime).
    { rewrite Z.quot_div_nonneg by lia.
      apply Z.div_le_upper_bound; nia. }
    lia.
  - assert (Hq : Z.quot genTime step = - Z.quot (- genTime) step).
    { rewrite Z.quot_opp_l by lia. lia. }
    rewrite Hq.
    pose proof (Z.quot_pos (- genTime) step).
    assert (Z.quot (- genTime) step <= - genTime).
    { rewrite Z.quot_div_nonneg by lia.
      apply Z.div_le_upper_bound; nia. }
    lia.
Qed.

Lemma counter_nonempty (step : Z) : Spec.counter step <> [].
Proof. discriminate. Qed.

Lemma GenerateTOTP_totp (w : World) (a : nat) (tok : Token) (genTime : Z) :
  heap w !! a = Some tok -> Seed tok <> [] ->
  StepSeconds w <> 0 -> 0 <= TokenLength w ->
  GenerateTOTP (addr a) genTime w = Done (totp w tok genTime, None, w).
Proof.
  intros Hload Hseed Hs Hn. rewrite GenerateTOTP_counter by assumption.
  now apply GenerateOTP_generate; [| | apply counter_nonempty |].
Qed.

Lemma GenerateOTP_no_seed (w : World) (a : nat) (tok : Token) (counterBytes : list byte) :
  heap w !! a = Some tok -> Seed tok = [] ->
  GenerateOTP (addr a) counterBytes w = Done ("", errors_New "OTP has no seed.", w).
Proof.
  intros Hload Hseed. unfold GenerateOTP, bind.
  rewrite (load_addr _ _ _ Hload), Hseed. reflexivity.
Qed.

Lemma GenerateOTP_no_counter (w : World) (a : nat) (tok : Token) :
  heap w !! a = Some tok -> Seed tok <> [] ->
  GenerateOTP (addr a) [] w =
  Done ("", errors_New "Counter is nil or otherwise malformed.", w).
Proof.
  intros Hload Hseed. unfold GenerateOTP, bind.
  rewrite (load_addr _ _ _ Hload).
  destruct (Seed tok); [congruence | reflexivity].
Qed.

(** ** VerifyChallenge *)

Lemma match_loop_3 (c0 c1 c2 challenge : string) :
  match_loop [c0; c1; c2] challenge = true <->
  challenge = c0 \/ challenge = c1 \/ challenge = c2.
Proof.
  cbn [match_loop].
  destruct (String.eqb_spec c0 challenge), (String.eqb_spec c1 challenge),
    (String.eqb_spec c2 challenge); intuition congruence.
Qed.

Lemma match_loop_1 (c0 challenge : string) :
  match_loop [c0] challenge = true <-> challenge = c0.
Proof.
  cbn [match_loop]. destruct (String.eqb_spec c0 challenge); intuition congruence.
Qed.

Section Verify.

Variable wall : nat -> Time.
Variables (w : World) (a : nat) (tok : Token).
Hypothesis Hload : heap w !! a = Some tok.
Hypothesis Hstep : StepSeconds w <> 0.

Lemma otps_loop_no_seed (step : Z) (steps : list Z) (otps : list string) :
  Seed tok = [] ->
  otps_loop wall (addr a) (step :: steps) otps w = Done (None, tick w).
Proof.
  intros Hseed. cbn [otps_loop]. unfold bind at 1, time_Now. unfold bind.
  rewrite GenerateTOTP_counter by exact Hstep.
  rewrite (GenerateOTP_no_seed (tick w) a tok) by assumption.
  reflexivity.
Qed.

Lemma VerifyChallenge_no_seed (challenge : string) (drift : bool) :
  Seed tok = [] ->
  VerifyChallenge wall (addr a) challenge drift w = Done (false, tick w).
Proof.
  intros Hseed. unfold VerifyChallenge.
  destruct drift; unfold bind, global, ret; cbn [app];
    rewrite otps_loop_no_seed by assumption; reflexivity.
Qed.

Hypothesis Hseed : Seed tok <> [].
Hypothesis Hlen : 0 <= TokenLength w.

Lemma VerifyChallenge_window (challenge : string) :
  VerifyChallenge wall (addr a) challenge true w =
  Done (match_loop
          [totp w tok (wrap64 (Unix (wall (clock_reads w)) + 0));
           totp w tok (wrap64 (Unix (wall (S (clock_reads w)))
                               + wrap64 (-1 * StepSeconds w)));
           totp w tok (wrap64 (Unix (wall (S (S (clock_reads w))))
                               + StepSeconds w))]
          challenge,
        tick (tick (tick w))).
Proof.
  unfold VerifyChallenge. unfold bind at 1. unfold bind at 1, global, ret at 1.
  unfold bind at 1. cbn [otps_loop app].
  unfold bind at 1, time_Now. unfold bind at 1.
  rewrite (GenerateTOTP_totp (tick w) a tok) by assumption. cbn [snd fst app].
  unfold bind at 1. unfold bind at 1.
  rewrite (GenerateTOTP_totp (tick (tick w)) a tok) by assumption. cbn [snd fst app].
  unfold bind at 1. unfold bind at 1.
  rewrite (GenerateTOTP_totp (tick (tick (tick w))) a tok) by assumption.
  reflexivity.
Qed.

Lemma VerifyChallenge_single (challenge : string) :
  VerifyChallenge wall (addr a) challenge false w =
  Done (match_loop [totp w tok (wrap64 (Unix (wall (clock_reads w)) + 0))] challenge,
        tick w).
Proof.
  unfold VerifyChallenge. unfold bind at 1, ret at 1.
  unfold bind at 1. cbn [otps_loop app].
  unfold bind at 1, time_Now. unfold bind at 1.
  rewrite (GenerateTOTP_totp (tick w) a tok) by assumption.
  reflexivity.
Qed.

End Verify.

(** ** base32.EncodeToString is the encoding of RFC 4648 *)

Lemma to_byte_byte_val (x : byte) : to_byte (byte_val x) = x.
Proof.
  unfold to_byte, byte_val.
  rewrite Z.mod_small by apply byte_val_range.
  now rewrite N2Z.id, Byte.of_to_N.
Qed.

Lemma in_all_bytes (x : byte) : In x all_bytes.
Proof.
  unfold all_bytes. apply in_map_iff.
  exists (Z.to_nat (byte_val x)). pose proof (byte_val_range x). split.
  - rewrite Z2Nat.id by lia. apply to_byte_byte_val.
  - apply in_seq. lia.
Qed.

Lemma quantum_chars_agree_all (x y : byte) : quantum_chars_agree x y = true.
Proof.
  assert (H : forallb (fun x => forallb (quantum_chars_agree x) all_bytes) all_bytes = true)
    by (vm_compute; reflexivity).
  rewrite forallb_forall in H. specialize (H x (in_all_bytes x)).
  rewrite forallb_forall in H. exact (H y (in_all_bytes y)).
Qed.

Section Chars.

Variables x y : byte.

Local Ltac pick :=
  pose proof (quantum_chars_agree_all x y) as H; unfold quantum_chars_agree in H;
  rewrite !andb_true_iff, !Ascii.eqb_eq in H; tauto.

Lemma char0 :
  base32.sym (Z.shiftr (byte_val x) 3) =
  RFC4648.char (RFC4648.group (Z.testbit (byte_val x) 7) (Z.testbit (byte_val x) 6)
    (Z.testbit (byte_val x) 5) (Z.testbit (byte_val x) 4) (Z.testbit (byte_val x) 3)).
Proof. pick. Qed.

Lemma char1 :
  base32.sym (Z.lor (Z.land (Z.shiftr (byte_val y) 6) 0x1F)
                    (Z.land (base32.u8 (Z.shiftl (byte_val x) 2)) 0x1F)) =
  RFC4648.char (RFC4648.group (Z.testbit (byte_val x) 2) (Z.testbit (byte_val x) 1)
    (Z.testbit (byte_val x) 0) (Z.testbit (byte_val y) 7) (Z.testbit (byte_val y) 6)).
Proof. pick. Qed.

Lemma char2 :
  base32.sym (Z.land (Z.shiftr (byte_val x) 1) 0x1F) =
  RFC4648.char (RFC4648.group (Z.testbit (byte_val x) 5) (Z.testbit (byte_val x) 4)
    (Z.testbit (byte_val x) 3) (Z.testbit (byte_val x) 2) (Z.testbit (byte_val x) 1)).
Proof. pick. Qed.

Lemma char3 :
  base32.sym (Z.lor (Z.land (Z.shiftr (byte_val y) 4) 0x1F)
                    (Z.land (base32.u8 (Z.shiftl (byte_val x) 4)) 0x1F)) =
  RFC4648.char (RFC4648.group (Z.testbit (byte_val x) 0) (Z.testbit (byte_val y) 7)
    (Z.testbit (byte_val y) 6) (Z.testbit (byte_val y) 5) (Z.testbit (byte_val y) 4)).
Proof. pick. Qed.

Lemma char4 :
  base32.sym (Z.lor (Z.shiftr (byte_val y) 7)
                    (Z.land (base32.u8 (Z.shiftl (byte_val x) 1)) 0x1F)) =
  RFC4648.char (RFC4648.group (Z.testbit (byte_val x) 3) (Z.testbit (byte_val x) 2)
    (Z.testbit (byte_val x) 1) (Z.testbit (byte_val x) 0) (Z.testbit (byte_val y) 7)).
Proof. pick. Qed.

Lemma char5 :
  base32.sym (Z.land (Z.shiftr (byte_val x) 2) 0x1F) =
  RFC4648.char (RFC4648.group (Z.testbit (byte_val x) 6) (Z.testbit (byte_val x) 5)
    (Z.testbit (byte_val x) 4) (Z.testbit (byte_val x) 3) (Z.testbit (byte_val x) 2)).
Proof. pick. Qed.

Lemma char6 :
  base32.sym (Z.lor (Z.shiftr (byte_val y) 5)
                    (Z.land (base32.u8 (Z.shiftl (byte_val x) 3)) 0x1F)) =
  RFC4648.char (RFC4648.group (Z.testbit (byte_val x) 1) (Z.testbit (byte_val x) 0)
    (Z.testbit (byte_val y) 7) (Z.testbit (byte_val y) 6) (Z.testbit (byte_val y) 5)).
Proof. pick. Qed.

Lemma char7 :
  base32.sym (Z.land (byte_val x) 0x1F) =
  RFC4648.char (RFC4648.group (Z.testbit (byte_val x) 4) (Z.testbit (byte_val x) 3)
    (Z.testbit (byte_val x) 2) (Z.testbit (byte_val x) 1) (Z.testbit (byte_val x) 0)).
Proof. pick. Qed.

End Chars.

Ltac quantum_eval :=
  cbn -[base32.sym RFC4648.char RFC4648.group Z.testbit Z.land Z.lor Z.shiftr
        Z.shiftl base32.u8 byte_val Nat.modulo Nat.sub].

Ltac final_quantum_eval :=
  unfold RFC4648.encode, base32.EncodeToString, base32.quantum;
  cbn -[base32.sym RFC4648.char RFC4648.group Z.testbit Z.land Z.lor Z.shiftr
        Z.shiftl base32.u8 byte_val].

Lemma encode_quantum (s0 s1 s2 s3 s4 : byte) (rest : list byte) :
  RFC4648.encode (s0 :: s1 :: s2 :: s3 :: s4 :: rest) =
  (base32.quantum 5 (byte_val s0) (byte_val s1) (byte_val s2) (byte_val s3) (byte_val s4)
     ++ RFC4648.encode rest)%string.
Proof.
  unfold RFC4648.encode. quantum_eval.
  set (cs := map RFC4648.char (RFC4648.groups (flat_map RFC4648.bits rest))).
  replace (S (S (S (S (S (S (S (S (length cs)))))))) mod 8)%nat
    with (length cs mod 8)%nat.
  - symmetry.
    repeat (apply f_equal2;
      [first [ exact (char0 s0 s1) | exact (char1 s0 s1) | exact (char2 s1 s2)
             | exact (char3 s1 s2) | exact (char4 s2 s3) | exact (char5 s3 s4)
             | exact (char6 s3 s4) | exact (char7 s4 s4) ] |]).
    reflexivity.
  - change (S (S (S (S (S (S (S (S (length cs)))))))))%nat with (8 + length cs)%nat.
    rewrite <- (Nat.Div0.add_mod_idemp_l 8 (length cs) 8). reflexivity.
Qed.

Lemma EncodeToString_RFC4648 (src : list byte) :
  base32.EncodeToString src = RFC4648.encode src.
Proof.
  remember (length src) as n eqn:Hn.
  revert src Hn. induction n as [n IH] using lt_wf_ind. intros src Hn.
  destruct src as [|s0 [|s1 [|s2 [|s3 [|s4 rest]]]]].
  - reflexivity.
  - final_quantum_eval.
    repeat (apply f_equal2;
      [first [ exact (char0 s0 x00) | exact (char1 s0 x00) | reflexivity ] |]).
    reflexivity.
  - final_quantum_eval.
    repeat (apply f_equal2;
      [first [ exact (char0 s0 s1) | exact (char1 s0 s1) | exact (char2 s1 x00)
             | exact (char3 s1 x00) | reflexivity ] |]).
    reflexivity.
  - final_quantum_eval.
    repeat (apply f_equal2;
      [first [ exact (char0 s0 s1) | exact (char1 s0 s1) | exact (char2 s1 s2)
             | exact (char3 s1 s2) | exact (char4 s2 x00) | reflexivity ] |]).
    reflexivity.
  - final_quantum_eval.
    repeat (apply f_equal2;
      [first [ exact (char0 s0 s1) | exact (char1 s0 s1) | exact (char2 s1 s2)
             | exact (char3 s1 s2) | exact (char4 s2 s3) | exact (char5 s3 x00)
             | exact (char6 s3 x00) | reflexivity ] |]).
    reflexivity.
  - rewrite encode_quantum. cbn [base32.EncodeToString].
    f_equal. apply (IH (length rest)); [subst n; simpl; lia | reflexivity].
Qed.

Lemma upper_char (v : Z) : strings.upper (RFC4648.char v) = RFC4648.char v.
Proof.
  unfold RFC4648.char. generalize (Z.to_nat v) as n. intros n.
  do 33 (destruct n as [|n]; [reflexivity|]). reflexivity.
Qed.

Lemma ToUpper_list (l : list ascii) :
  strings.ToUpper (string_of_list_ascii l) = string_of_list_ascii (map strings.upper l).
Proof. induction l as [|c l IH]; simpl; [reflexivity | now rewrite IH]. Qed.

Lemma ToUpper_encode (src : list byte) :
  strings.ToUpper (RFC4648.encode src) = RFC4648.encode src.
Proof.
  unfold RFC4648.encode. rewrite ToUpper_list. f_equal.
  rewrite map_app, map_map. f_equal.
  - apply map_ext. intros v. apply upper_char.
  - generalize ((8 - length (map RFC4648.char
      (RFC4648.groups (flat_map RFC4648.bits src))) mod 8) mod 8)%nat as k.
    intros k. induction k as [|k IHk]; simpl; [reflexivity | now rewrite IHk].
Qed.

(** ** No call touches an existing token *)

Lemma bind_Done_inv {A B : Type} (m : Go A) (k : A -> Go B) (w : World) (r : B * World) :
  bind m k w = Done r -> exists x w1, m w = Done (x, w1) /\ k x w1 = Done r.
Proof.
  unfold bind. destruct (m w) as [[x w1]|p]; [eauto | discriminate].
Qed.

Lemma keeps_heap_extends {A : Type} (m : Go A) :
  (forall w r w', m w = Done (r, w') -> heap w' = heap w) -> extends_heap m.
Proof.
  intros H w r w' Hm. exists []. rewrite app_nil_r. split; [eauto | constructor].
Qed.

Lemma extends_bind {A B : Type} (m : Go A) (k : A -> Go B) :
  extends_heap m -> (forall x, extends_heap (k x)) -> extends_heap (bind m k).
Proof.
  intros Hm Hk w r w' H.
  apply bind_Done_inv in H as (x & w1 & H1 & H2).
  apply Hm in H1 as (f1 & E1 & F1). apply Hk in H2 as (f2 & E2 & F2).
  exists (f1 ++ f2)%list. rewrite E2, E1, app_assoc. split; [reflexivity|].
  apply Forall_app; auto.
Qed.

Ltac keeps :=
  apply keeps_heap_extends; intros ? ? ?;
  repeat match goal with
         | |- context [if ?c then _ else _] => destruct c
         | |- context [match ?x with _ => _ end] => destruct x
         end;
  intros H; inversion H; reflexivity.

Lemma extends_ret {A : Type} (x : A) : extends_heap (ret x).
Proof. unfold ret. keeps. Qed.

Lemma extends_throw {A : Type} (p : panic) : extends_heap (@throw A p).
Proof. unfold throw. keeps. Qed.

Lemma extends_global {A : Type} (var : World -> A) : extends_heap (global var).
Proof. unfold global. keeps. Qed.

Lemma extends_index {A : Type} (s : list A) (i : Z) : extends_heap (index s i).
Proof. unfold index, throw, ret. keeps. Qed.

Lemma extends_store {A : Type} (s : list A) (i : Z) (x : A) : extends_heap (store s i x).
Proof. unfold store, throw, ret. keeps. Qed.

Lemma extends_make {A : Type} (n : Z) (x : A) : extends_heap (make n x).
Proof. unfold make, throw, ret. keeps. Qed.

Lemma extends_int_quo (x y : Z) : extends_heap (int_quo x y).
Proof. unfold int_quo, throw, ret. keeps. Qed.

Lemma extends_int_rem (x y : Z) : extends_heap (int_rem x y).
Proof. unfold int_rem, throw, ret. keeps. Qed.

Lemma extends_load (t : pointer) : extends_heap (load t).
Proof. unfold load. keeps. Qed.

Lemma extends_time_Now (wall : nat -> Time) : extends_heap (time_Now wall).
Proof. unfold time_Now. keeps. Qed.

Lemma extends_rand_Seed (seed : Z) : extends_heap (rand_Seed seed).
Proof.
  apply keeps_heap_extends. intros w r w' H. unfold rand_Seed, seeded in H.
  destruct (randseednop w); inversion H; reflexivity.
Qed.

Lemma extends_rand_Intn (source : Z -> nat -> Z -> Z) (n : Z) :
  extends_heap (rand_Intn source n).
Proof. unfold rand_Intn. keeps. Qed.

Lemma extends_new (tok : Token) : encoded tok -> extends_heap (new tok).
Proof.
  intros Htok w r w' H. unfold new in H. inversion H. subst.
  exists [tok]. split; [reflexivity | now constructor].
Qed.

Create HintDb go_heap.

#[local] Hint Resolve extends_ret extends_throw extends_global extends_index
  extends_store extends_make extends_int_quo extends_int_rem extends_load
  extends_time_Now extends_rand_Seed extends_rand_Intn : go_heap.

Ltac extends :=
  repeat first
    [ solve [auto with go_heap]
    | apply extends_bind; [| intros ?]
    | match goal with
      | |- extends_heap (if ?c then _ else _) => destruct c
      | |- extends_heap (match ?x with _ => _ end) => destruct x
      end ].

Lemma extends_GenerateOTP (t : pointer) (counterBytes : list byte) :
  extends_heap (GenerateOTP t counterBytes).
Proof. unfold GenerateOTP. extends. Qed.

Lemma extends_timeBytes_loop (n : nat) (timeStep : Z) (timeBytes : list byte) :
  extends_heap (timeBytes_loop n timeStep timeBytes).
Proof.
  revert timeStep timeBytes. induction n as [|n IH]; intros; cbn [timeBytes_loop];
    extends.
Qed.

#[local] Hint Resolve extends_GenerateOTP extends_timeBytes_loop : go_heap.

Lemma extends_GenerateTOTP (t : pointer) (genTime : Z) :
  extends_heap (GenerateTOTP t genTime).
Proof. unfold GenerateTOTP. extends. Qed.

Lemma encoded_TokenFromBytes (seedBytes : list byte) :
  encoded {| Seed := seedBytes;
             Base32 := strings.ToUpper (base32.EncodeToString seedBytes) |}.
Proof. unfold encoded. cbn [Seed Base32]. now rewrite EncodeToString_RFC4648. Qed.

Lemma extends_TokenFromBytes (seedBytes : list byte) :
  extends_heap (TokenFromBytes seedBytes).
Proof.
  unfold TokenFromBytes. extends. apply extends_new, encoded_TokenFromBytes.
Qed.

#[local] Hint Resolve extends_GenerateTOTP extends_TokenFromBytes : go_heap.

Section HostHeap.

Variable wall : nat -> Time.
Variable source : Z -> nat -> Z -> Z.

Lemma extends_otps_loop (t : pointer) (steps : list Z) (otps : list string) :
  extends_heap (otps_loop wall t steps otps).
Proof.
  revert otps. induction steps as [|step steps IH]; intros; cbn [otps_loop];
    extends.
Qed.

Hint Resolve extends_otps_loop : go_heap.

Lemma extends_VerifyChallenge (t : pointer) (challenge : string) (drift : bool) :
  extends_heap (VerifyChallenge wall t challenge drift).
Proof. unfold VerifyChallenge. extends. Qed.

Lemma extends_seedRunes_loop (range : list nat) (seedRunes : list Z) :
  extends_heap (seedRunes_loop source range seedRunes).
Proof.
  revert seedRunes. induction range as [|i range IH]; intros;
    cbn [seedRunes_loop]; extends.
Qed.

Hint Resolve extends_VerifyChallenge extends_seedRunes_loop : go_heap.

Lemma extends_NewToken : extends_heap (NewToken wall source).
Proof. unfold NewToken. extends. Qed.

Hint Resolve extends_NewToken : go_heap.

Lemma extends_perform (c : call) : extends_heap (perform wall source c).
Proof. destruct c; cbn [perform]; extends. keeps. Qed.

End HostHeap.

Lemma wrap64_add_r (x y : Z) : wrap64 (x + wrap64 y) = wrap64 (x + y).
Proof.
  unfold wrap64. f_equal.
  replace (x + ((y + 2 ^ 63) mod 2 ^ 64 - 2 ^ 63) + 2 ^ 63)
    with (x + (y + 2 ^ 63) mod 2 ^ 64) by lia.
  rewrite Z.add_mod_idemp_r by lia. f_equal. lia.
Qed.

Lemma TokenFromBytes_result (seedBytes : list byte) (w : World) :
  exists w',
    TokenFromBytes seedBytes w = Done (addr (length (heap w)), None, w') /\
    heap w' = (heap w ++ [{| Seed := seedBytes;
                            Base32 := strings.ToUpper (base32.EncodeToString seedBytes) |}])%list.
Proof. eexists. split; reflexivity. Qed.

Lemma NewToken_result (wall : nat -> Time) (source : Z -> nat -> Z -> Z)
    (w w' : World) (p : pointer) (e : error) :
  NewToken wall source w = Done (p, e, w') ->
  exists a tok, p = addr a /\ e = None /\ heap w' !! a = Some tok /\ encoded tok.
Proof.
  unfold NewToken. intros H.
  apply bind_Done_inv in H as (now & w1 & _ & H).
  apply bind_Done_inv in H as (u & w2 & _ & H).
  apply bind_Done_inv in H as (n & w3 & _ & H).
  apply bind_Done_inv in H as (zeroed & w4 & _ & H).
  apply bind_Done_inv in H as (seedRunes & w5 & _ & H).
  destruct (TokenFromBytes_result (flat_map utf8 seedRunes) w5) as (w6 & E & Hheap).
  rewrite E in H. inversion H; subst.
  eexists _, _. repeat split.
  - rewrite Hheap. apply list_lookup_middle. reflexivity.
  - apply encoded_TokenFromBytes.
Qed.

(** Seeding touches the generator only, and only where [rand.Seed]
    still reseeds. *)
Lemma seeded_SeedLength (seed : Z) (w : World) :
  SeedLength (seeded seed w) = SeedLength w.
Proof. unfold seeded. now destruct (randseednop w). Qed.

Lemma seeded_frame (seed : Z) (w : World) :
  StepSeconds (seeded seed w) = StepSeconds w /\
  TokenLength (seeded seed w) = TokenLength w /\
  heap (seeded seed w) = heap w /\
  clock_reads (seeded seed w) = clock_reads w /\
  randseednop (seeded seed w) = randseednop w.
Proof.
  unfold seeded. destruct (randseednop w) eqn:E; repeat split. exact E.
Qed.

Lemma seeded_reseeds (seed : Z) (w : World) :
  randseednop w = false ->
  rand_seed (seeded seed w) = seed /\ rand_draws (seeded seed w) = 0%nat.
Proof. unfold seeded. intros ->. split; reflexivity. Qed.

Lemma seeded_nop (seed : Z) (w : World) :
  randseednop w = true -> seeded seed w = w.
Proof. unfold seeded. now intros ->. Qed.

(** [NewToken] returns, with a seed of [SeedLength] bytes, on every host
    whose generator keeps [rand.Intn]'s promise [0 <= Intn n < n]. *)
Section Random.

Variable wall : nat -> Time.
Variable source : Z -> nat -> Z -> Z.
Hypothesis source_range : forall seed k n, 0 < n -> 0 <= source seed k n < n.

Lemma runeCharacters_ascii : Forall (fun r => 0 <= r < 128) runeCharacters.
Proof. vm_compute. repeat constructor; discriminate. Qed.

Lemma index_lookup {A : Type} (s : list A) (i : Z) (x : A) (w : World) :
  0 <= i -> s !! Z.to_nat i = Some x -> index s i w = Done (x, w).
Proof.
  intros Hi Hx. unfold index.
  destruct (i <? 0) eqn:E; [apply Z.ltb_lt in E; lia|]. now rewrite Hx.
Qed.

Lemma seedRunes_loop_returns (range : list nat) (seedRunes : list Z) (w : World) :
  Forall (fun i => (i < length seedRunes)%nat) range ->
  Forall (fun r => 0 <= r < 128) seedRunes ->
  exists seedRunes' w',
    seedRunes_loop source range seedRunes w = Done (seedRunes', w') /\
    length seedRunes' = length seedRunes /\
    Forall (fun r => 0 <= r < 128) seedRunes'.
Proof.
  revert seedRunes w. induction range as [|i range IH]; intros seedRunes w Hr Ha.
  - exists seedRunes, w. repeat split; assumption.
  - inversion Hr as [|? ? Hi Hrange]; subst. cbn [seedRunes_loop].
    change (Z.of_nat (length runeCharacters)) with 36.
    unfold bind at 1, rand_Intn at 1. change (36 <=? 0) with false. cbv iota.
    set (w1 := Build_World _ _ _ _ _ _ _ _).
    set (k := source (rand_seed w) (rand_draws w) 36).
    assert (Hk : 0 <= k < 36) by (apply source_range; lia).
    destruct (lookup_lt_is_Some_2 runeCharacters (Z.to_nat k)) as [c Hc].
    { change (length runeCharacters) with 36%nat. lia. }
    assert (Hc128 : 0 <= c < 128).
    { exact (proj1 (Forall_lookup _ _) runeCharacters_ascii _ _ Hc). }
    unfold bind at 1.
    rewrite (index_lookup runeCharacters k c w1) by (lia || assumption).
    unfold bind at 1, store.
    destruct ((0 <=? Z.of_nat i) && (Z.of_nat i <? Z.of_nat (length seedRunes))) eqn:E.
    + unfold ret at 1. rewrite Nat2Z.id.
      destruct (IH (<[i:=c]> seedRunes) w1) as (runes' & w' & E' & Hl & Ha').
      * rewrite length_insert. exact Hrange.
      * now apply Forall_insert.
      * exists runes', w'. rewrite length_insert in Hl. repeat split; assumption.
    + apply andb_false_iff in E as [E|E];
        [apply Z.leb_gt in E | apply Z.ltb_ge in E]; lia.
Qed.

Lemma utf8_ascii_length (seedRunes : list Z) :
  Forall (fun r => 0 <= r < 128) seedRunes ->
  length (flat_map utf8 seedRunes) = length seedRunes.
Proof.
  induction 1 as [|r seedRunes Hr _ IH]; [reflexivity|].
  cbn [flat_map]. rewrite length_app, IH. unfold utf8.
  destruct (r <? 0) eqn:E0; [apply Z.ltb_lt in E0; lia|].
  destruct (1114111 <? r) eqn:E1; [apply Z.ltb_lt in E1; lia|].
  destruct (55296 <=? r) eqn:E2; [apply Z.leb_le in E2; lia|].
  destruct (r <? 128) eqn:E3; [reflexivity | apply Z.ltb_ge in E3; lia].
Qed.

Lemma NewToken_returns (w : World) :
  0 <= SeedLength w ->
  exists a tok w',
    NewToken wall source w = Done (addr a, None, w') /\
    heap w' !! a = Some tok /\
    length (Seed tok) = Z.to_nat (SeedLength w) /\
    encoded tok.
Proof.
  intros Hlen. unfold NewToken.
  unfold bind at 1, time_Now. unfold bind at 1, rand_Seed.
  unfold bind at 1, global. rewrite seeded_SeedLength. cbn [SeedLength tick].
  unfold bind at 1, make.
  destruct (SeedLength w <? 0) eqn:E; [apply Z.ltb_lt in E; lia|].
  unfold ret at 1. unfold bind at 1.
  set (w1 := seeded _ _).
  set (zeroed := replicate (Z.to_nat (SeedLength w)) 0).
  destruct (seedRunes_loop_returns (seq 0 (length zeroed)) zeroed w1)
    as (seedRunes & w2 & E2 & Hl & Ha).
  { apply List.Forall_forall. intros i Hi%in_seq. lia. }
  { subst zeroed. apply Forall_replicate. lia. }
  rewrite E2.
  destruct (TokenFromBytes_result (flat_map utf8 seedRunes) w2) as (w3 & E3 & Hheap).
  rewrite E3. eexists _, _, w3. split; [reflexivity|]. rewrite Hheap. repeat split.
  - apply list_lookup_middle. reflexivity.
  - cbn [Seed]. rewrite utf8_ascii_length, Hl by assumption.
    subst zeroed. apply length_replicate.
  - apply encoded_TokenFromBytes.
Qed.

End Random.

(** The counter of the specification is the big-endian rendering of the
    step in eight bytes. *)
Lemma counter_big_endian (step : Z) :
  length (Spec.counter step) = 8%nat /\
  fold_left (fun acc b => 256 * acc + byte_val b) (Spec.counter step) 0
  = step mod 2 ^ 64.
Proof.
  split; [reflexivity|].
  cbn -[Z.mul Z.add Z.pow Z.div byte_val to_byte].
  rewrite !byte_val_to_byte.
  change (2 ^ (8 * Z.of_nat 0)) with 1. rewrite Z.div_1_r.
  change (2 ^ (8 * Z.of_nat 1)) with 256.
  change (2 ^ (8 * Z.of_nat 2)) with (256 * 256).
  change (2 ^ (8 * Z.of_nat 3)) with (256 * 256 * 256).
  change (2 ^ (8 * Z.of_nat 4)) with (256 * 256 * 256 * 256).
  change (2 ^ (8 * Z.of_nat 5)) with (256 * 256 * 256 * 256 * 256).
  change (2 ^ (8 * Z.of_nat 6)) with (256 * 256 * 256 * 256 * 256 * 256).
  change (2 ^ (8 * Z.of_nat 7)) with (256 * 256 * 256 * 256 * 256 * 256 * 256).
  rewrite (Z.mod_eq step (2 ^ 64)) by lia.
  change (2 ^ 64) with (256 * 256 * 256 * 256 * 256 * 256 * 256 * 256).
  rewrite <- !Z.div_div by lia.
  set (q1 := step / 256). set (q2 := q1 / 256). set (q3 := q2 / 256).
  set (q4 := q3 / 256). set (q5 := q4 / 256). set (q6 := q5 / 256).
  set (q7 := q6 / 256).
  pose proof (Z.mod_eq step 256). pose proof (Z.mod_eq q1 256).
  pose proof (Z.mod_eq q2 256). pose proof (Z.mod_eq q3 256).
  pose proof (Z.mod_eq q4 256). pose proof (Z.mod_eq q5 256).
  pose proof (Z.mod_eq q6 256). pose proof (Z.mod_eq q7 256).
  fold q1 in H. fold q2 in H0. fold q3 in H1. fold q4 in H2. fold q5 in H3.
  fold q6 in H4. fold q7 in H5.
  lia.
Qed.

(** * The claims *)

(** C1.  For every token with a non-empty secret and every non-empty
    counter, [GenerateOTP] returns, without an error, the code of the
    HOTP dynamic truncation: with [digest] the HMAC-SHA1 of the counter
    under the secret, [offset = digest[19] & 0x0F] and [binCode] the four
    bytes from [offset] combined big-endian with the top bit masked, the
    number written by the code is [binCode mod 10^TokenLength].  (A
    code length is not negative: with a negative [TokenLength] the
    modulus is 0.  Nor does it exceed 10000009, the largest width that
    [fmt] reads in a format: beyond it [Sprintf] returns no number.) *)
Theorem GenerateOTP_dynamic_truncation
    (w : World) (a : nat) (tok : Token) (counterBytes : list byte) :
  heap w !! a = Some tok -> Seed tok <> [] -> counterBytes <> [] ->
  0 <= TokenLength w <= 10000009 ->
  let digest := HMAC.Sum (Seed tok) counterBytes in
  let offset := Z.land (Spec.at_ digest 19) 0x0F in
  let binCode :=
    Z.lor (Z.lor (Z.lor (Z.shiftl (Z.land (Spec.at_ digest offset) 0x7F) 24)
                        (Z.shiftl (Spec.at_ digest (offset + 1)) 16))
                 (Z.shiftl (Spec.at_ digest (offset + 2)) 8))
          (Spec.at_ digest (offset + 3)) in
  exists code,
    GenerateOTP (addr a) counterBytes w = Done (code, None, w) /\
    Spec.value code = Some (binCode mod 10 ^ TokenLength w).
Proof.
  intros Hload Hseed Hctr Hlen digest offset binCode.
  exists (Spec.generate (TokenLength w) (Seed tok) counterBytes). split.
  - rewrite <- otp_code_generate by assumption.
    apply GenerateOTP_generate; (assumption || lia).
  - unfold Spec.generate. apply render_value.
    apply Z.mod_pos_bound, Z.pow_pos_nonneg; lia.
Qed.

Lemma GenerateOTP_dynamic_truncation_witness :
  let digest := HMAC.Sum (Seed testToken) (Spec.counter 3333) in
  let offset := Z.land (Spec.at_ digest 19) 0x0F in
  let binCode :=
    Z.lor (Z.lor (Z.lor (Z.shiftl (Z.land (Spec.at_ digest offset) 0x7F) 24)
                        (Z.shiftl (Spec.at_ digest (offset + 1)) 16))
                 (Z.shiftl (Spec.at_ digest (offset + 2)) 8))
          (Spec.at_ digest (offset + 3)) in
  exists code,
    GenerateOTP (addr 0) (Spec.counter 3333) test_world = Done (code, None, test_world) /\
    Spec.value code = Some (binCode mod 10 ^ TokenLength test_world).
Proof.
  apply (GenerateOTP_dynamic_truncation test_world 0%nat testToken (Spec.counter 3333));
    [reflexivity | discriminate | discriminate | simpl; lia].
Defined.

(** C2, as the code has it.  For every [int64] time and positive
    [StepSeconds], [GenerateTOTP] returns exactly what [GenerateOTP]
    returns for the token and the 8-byte big-endian counter of
    [genTime / StepSeconds] with the quotient truncated toward zero;
    that is [floor (genTime / StepSeconds)] whenever [genTime] is not
    negative. *)
Theorem GenerateTOTP_time_step (w : World) (t : pointer) (genTime : Z) :
  in_int64 genTime -> 0 < StepSeconds w ->
  GenerateTOTP t genTime w =
    GenerateOTP t (Spec.counter (Z.quot genTime (StepSeconds w))) w /\
  (0 <= genTime -> Z.quot genTime (StepSeconds w) = genTime / StepSeconds w) /\
  length (Spec.counter (Z.quot genTime (StepSeconds w))) = 8%nat /\
  fold_left (fun acc b => 256 * acc + byte_val b)
    (Spec.counter (Z.quot genTime (StepSeconds w))) 0
  = Z.quot genTime (StepSeconds w) mod 2 ^ 64.
Proof.
  intros Hg Hs. split; [|split].
  - rewrite GenerateTOTP_counter by lia. now rewrite wrap64_quot.
  - intros Hpos. apply Z.quot_div_nonneg; lia.
  - apply counter_big_endian.
Qed.

Lemma GenerateTOTP_time_step_witness :
  GenerateTOTP (addr 0) (-1) test_world =
    GenerateOTP (addr 0) (Spec.counter (Z.quot (-1) (StepSeconds test_world))) test_world /\
  (0 <= -1 -> Z.quot (-1) (StepSeconds test_world) = -1 / StepSeconds test_world) /\
  length (Spec.counter (Z.quot (-1) (StepSeconds test_world))) = 8%nat /\
  fold_left (fun acc b => 256 * acc + byte_val b)
    (Spec.counter (Z.quot (-1) (StepSeconds test_world))) 0
  = Z.quot (-1) (StepSeconds test_world) mod 2 ^ 64.
Proof.
  apply (GenerateTOTP_time_step test_world (addr 0) (-1)).
  - unfold in_int64, min_int64, max_int64. lia.
  - simpl. lia.
Defined.

(** C2, as the claim states it, fails one second before the epoch: the
    code divides -1 by 30 to 0, the floor is -1, and the two counters
    give different codes. *)
Lemma GenerateTOTP_floor_counterexample :
  GenerateTOTP (addr 0) (-1) test_world = Done ("650423", None, test_world) /\
  GenerateOTP (addr 0) (Spec.counter (-1 / StepSeconds test_world)) test_world
    = Done ("948889", None, test_world) /\
  -1 / StepSeconds test_world = -1 /\
  GenerateTOTP (addr 0) (-1) test_world <>
  GenerateOTP (addr 0) (Spec.counter (-1 / StepSeconds test_world)) test_world.
Proof.
  assert (H1 : GenerateTOTP (addr 0) (-1) test_world = Done ("650423", None, test_world))
    by (vm_compute; reflexivity).
  assert (H2 : GenerateOTP (addr 0) (Spec.counter (-1 / StepSeconds test_world)) test_world
               = Done ("948889", None, test_world))
    by (vm_compute; reflexivity).
  repeat split; try assumption. rewrite H1, H2. discriminate.
Qed.

(** C3.  With the secret 65..84, the time 100000, 30-second steps and
    6-digit codes, [GenerateTOTP] returns "111782" (the package's
    TestVerify). *)
Theorem TestVerify :
  StepSeconds start = 30 /\ TokenLength start = 6 /\
  testSeedBytes = bytes_of_string "ABCDEFGHIJKLMNOPQRST" /\
  exists token w,
    TokenFromBytes testSeedBytes start = Done (token, None, w) /\
    GenerateTOTP token 100000 w = Done ("111782", None, w).
Proof.
  repeat split. exists (addr 0), test_world. split; vm_compute; reflexivity.
Qed.

(** C4, as the code has it.  For a token with a non-empty secret and a
    reference time [t] shown by the three readings of the clock,
    [VerifyChallenge] with drift returns true exactly when the challenge
    equals the code generated for [t], for [t - StepSeconds] or for
    [t + StepSeconds], and touches no token; a challenge that belongs to
    a step further away is therefore refused only when it differs from
    these three codes.  Where code generation fails (the secret is
    empty), the call returns false. *)
Theorem VerifyChallenge_drift
    (wall : nat -> Time) (w : World) (a : nat) (tok : Token)
    (challenge : string) (t : Z) :
  heap w !! a = Some tok ->
  StepSeconds w <> 0 -> 0 <= TokenLength w -> in_int64 t ->
  (forall k, (k < 3)%nat -> Unix (wall (clock_reads w + k)%nat) = t) ->
  (Seed tok <> [] ->
   exists now before after b w',
     GenerateTOTP (addr a) t w = Done (now, None, w) /\
     GenerateTOTP (addr a) (wrap64 (t - StepSeconds w)) w = Done (before, None, w) /\
     GenerateTOTP (addr a) (wrap64 (t + StepSeconds w)) w = Done (after, None, w) /\
     VerifyChallenge wall (addr a) challenge true w = Done (b, w') /\
     heap w' = heap w /\
     (b = true <-> challenge = now \/ challenge = before \/ challenge = after)) /\
  (Seed tok = [] ->
   (exists msg, GenerateTOTP (addr a) t w = Done ("", Some msg, w)) /\
   exists w', VerifyChallenge wall (addr a) challenge true w = Done (false, w')).
Proof.
  intros Hload Hstep Hlen Ht Hclock. split; intros Hseed.
  - exists (totp w tok t), (totp w tok (wrap64 (t - StepSeconds w))),
      (totp w tok (wrap64 (t + StepSeconds w))).
    eexists _, _. rewrite !(GenerateTOTP_totp w a tok) by assumption.
    rewrite (VerifyChallenge_window wall w a tok) by assumption.
    pose proof (Hclock 0%nat) as H0. pose proof (Hclock 1%nat) as H1.
    pose proof (Hclock 2%nat) as H2.
    rewrite Nat.add_0_r in H0. rewrite Nat.add_1_r in H1.
    replace (clock_reads w + 2)%nat with (S (S (clock_reads w))) in H2 by lia.
    rewrite H0, H1, H2 by lia.
    rewrite Z.add_0_r, (wrap64_id t), wrap64_add_r by assumption.
    replace (t + -1 * StepSeconds w) with (t - StepSeconds w) by lia.
    split; [reflexivity|]. split; [reflexivity|]. split; [reflexivity|].
    split; [reflexivity|]. split; [reflexivity|]. apply match_loop_3.
  - split.
    + eexists. rewrite GenerateTOTP_counter by assumption.
      apply (GenerateOTP_no_seed w a tok); assumption.
    + eexists. apply (VerifyChallenge_no_seed wall w a tok); assumption.
Qed.

Lemma VerifyChallenge_drift_witness :
  (Seed testToken <> [] ->
   exists now before after b w',
     GenerateTOTP (addr 0) 100000 test_world = Done (now, None, test_world) /\
     GenerateTOTP (addr 0) (wrap64 (100000 - StepSeconds test_world)) test_world
       = Done (before, None, test_world) /\
     GenerateTOTP (addr 0) (wrap64 (100000 + StepSeconds test_world)) test_world
       = Done (after, None, test_world) /\
     VerifyChallenge (frozen 100000) (addr 0) "111782" true test_world = Done (b, w') /\
     heap w' = heap test_world /\
     (b = true <-> "111782" = now \/ "111782" = before \/ "111782" = after)) /\
  (Seed testToken = [] ->
   (exists msg, GenerateTOTP (addr 0) 100000 test_world = Done ("", Some msg, test_world)) /\
   exists w', VerifyChallenge (frozen 100000) (addr 0) "111782" true test_world
              = Done (false, w')).
Proof.
  apply (VerifyChallenge_drift (frozen 100000) test_world 0%nat testToken "111782" 100000).
  - reflexivity.
  - simpl. lia.
  - simpl. lia.
  - unfold in_int64, min_int64, max_int64. lia.
  - reflexivity.
Defined.

(** C4, as the claim states it, fails where two steps share a code: at
    the time 1967550 (step 65585) the challenge "603599" is the code of
    step 65587, two steps away, and it is accepted, because step 65586
    has the same code. *)
Lemma VerifyChallenge_drift_counterexample :
  Z.quot 1967550 (StepSeconds test_world) = 65585 /\
  Z.quot 1967610 (StepSeconds test_world) = 65585 + 2 /\
  GenerateTOTP (addr 0) 1967610 test_world = Done ("603599", None, test_world) /\
  exists w',
    VerifyChallenge (frozen 1967550) (addr 0) "603599" true test_world = Done (true, w').
Proof.
  repeat split; try (vm_compute; reflexivity).
  eexists. vm_compute. reflexivity.
Qed.

(** C5, as the code has it.  For a token with a non-empty secret and a
    reference time [t] shown by the clock, [VerifyChallenge] without
    drift returns true exactly when the challenge equals the code
    generated for [t]; the code of a neighbouring step is therefore
    refused whenever it differs from the code of the current step. *)
Theorem VerifyChallenge_exact
    (wall : nat -> Time) (w : World) (a : nat) (tok : Token)
    (challenge : string) (t : Z) :
  heap w !! a = Some tok -> Seed tok <> [] ->
  StepSeconds w <> 0 -> 0 <= TokenLength w -> in_int64 t ->
  Unix (wall (clock_reads w)) = t ->
  exists now before after b w',
    GenerateTOTP (addr a) t w = Done (now, None, w) /\
    GenerateTOTP (addr a) (wrap64 (t - StepSeconds w)) w = Done (before, None, w) /\
    GenerateTOTP (addr a) (wrap64 (t + StepSeconds w)) w = Done (after, None, w) /\
    VerifyChallenge wall (addr a) challenge false w = Done (b, w') /\
    heap w' = heap w /\
    (b = true <-> challenge = now) /\
    (before <> now -> challenge = before -> b = false) /\
    (after <> now -> challenge = after -> b = false).
Proof.
  intros Hload Hseed Hstep Hlen Ht Hclock.
  exists (totp w tok t), (totp w tok (wrap64 (t - StepSeconds w))),
    (totp w tok (wrap64 (t + StepSeconds w))).
  eexists _, _. rewrite !(GenerateTOTP_totp w a tok) by assumption.
  rewrite (VerifyChallenge_single wall w a tok) by assumption.
  rewrite Hclock, Z.add_0_r, (wrap64_id t) by assumption.
  pose proof (match_loop_1 (totp w tok t)) as Hm.
  repeat split; try reflexivity; try apply Hm.
  - intros Hne ->. destruct (match_loop _ _) eqn:E; [|reflexivity].
    apply Hm in E. congruence.
  - intros Hne ->. destruct (match_loop _ _) eqn:E; [|reflexivity].
    apply Hm in E. congruence.
Qed.

Lemma VerifyChallenge_exact_witness :
  exists now before after b w',
    GenerateTOTP (addr 0) 100000 test_world = Done (now, None, test_world) /\
    GenerateTOTP (addr 0) (wrap64 (100000 - StepSeconds test_world)) test_world
      = Done (before, None, test_world) /\
    GenerateTOTP (addr 0) (wrap64 (100000 + StepSeconds test_world)) test_world
      = Done (after, None, test_world) /\
    VerifyChallenge (frozen 100000) (addr 0) "111782" false test_world = Done (b, w') /\
    heap w' = heap test_world /\
    (b = true <-> "111782" = now) /\
    (before <> now -> "111782" = before -> b = false) /\
    (after <> now -> "111782" = after -> b = false).
Proof.
  apply (VerifyChallenge_exact (frozen 100000) test_world 0%nat testToken "111782" 100000).
  - reflexivity.
  - discriminate.
  - simpl. lia.
  - simpl. lia.
  - unfold in_int64, min_int64, max_int64. lia.
  - reflexivity.
Defined.

(** C5, as the claim states it, fails where neighbouring steps share a
    code: at the time 1967580 (step 65586) the challenge "603599" is the
    code of the next step, 65587, and it is accepted without drift. *)
Lemma VerifyChallenge_exact_counterexample :
  Z.quot 1967580 (StepSeconds test_world) = 65586 /\
  Z.quot (1967580 + StepSeconds test_world) (StepSeconds test_world) = 65586 + 1 /\
  GenerateTOTP (addr 0) (1967580 + StepSeconds test_world) test_world
    = Done ("603599", None, test_world) /\
  exists w',
    VerifyChallenge (frozen 1967580) (addr 0) "603599" false test_world = Done (true, w').
Proof.
  repeat split; try (vm_compute; reflexivity).
  eexists. vm_compute. reflexivity.
Qed.

(** C6.  [GenerateOTP] returns an error exactly when the token's secret
    or the counter is empty; with both non-empty (and a code length
    that is not negative) it returns a code and no error. *)
Theorem GenerateOTP_error_iff_empty
    (w : World) (a : nat) (tok : Token) (counterBytes : list byte) :
  heap w !! a = Some tok ->
  (Seed tok = [] \/ counterBytes = [] ->
   exists msg, GenerateOTP (addr a) counterBytes w = Done ("", Some msg, w)) /\
  (forall code msg w',
     GenerateOTP (addr a) counterBytes w = Done (code, Some msg, w') ->
     Seed tok = [] \/ counterBytes = []) /\
  (Seed tok <> [] -> counterBytes <> [] -> 0 <= TokenLength w ->
   exists code, GenerateOTP (addr a) counterBytes w = Done (code, None, w)).
Proof.
  intros Hload. split; [|split].
  - intros Hempty. destruct (Seed tok) as [|s0 seed] eqn:Eseed.
    + eexists. now apply (GenerateOTP_no_seed w a tok).
    + destruct Hempty as [Hs | ->]; [discriminate|].
      eexists. apply (GenerateOTP_no_counter w a tok); [assumption|].
      rewrite Eseed. discriminate.
  - intros code msg w' H.
    destruct (Seed tok) as [|s0 seed] eqn:Eseed; [now left|].
    destruct counterBytes as [|c0 ctr] eqn:Ectr; [now right|]. exfalso.
    destruct (Z_lt_le_dec (TokenLength w) 0) as [Hneg|Hpos].
    + rewrite (GenerateOTP_negative_length w a tok) in H;
        [discriminate | assumption | rewrite Eseed; discriminate
        | discriminate | assumption].
    + rewrite (GenerateOTP_generate w a tok) in H;
        [discriminate | assumption | rewrite Eseed; discriminate
        | discriminate | assumption].
  - intros Hseed Hctr Hlen. eexists.
    apply (GenerateOTP_generate w a tok); assumption.
Qed.

Lemma GenerateOTP_error_iff_empty_witness :
  (Seed testToken = [] \/ Spec.counter 3333 = [] ->
   exists msg, GenerateOTP (addr 0) (Spec.counter 3333) test_world
               = Done ("", Some msg, test_world)) /\
  (forall code msg w',
     GenerateOTP (addr 0) (Spec.counter 3333) test_world = Done (code, Some msg, w') ->
     Seed testToken = [] \/ Spec.counter 3333 = []) /\
  (Seed testToken <> [] -> Spec.counter 3333 <> [] -> 0 <= TokenLength test_world ->
   exists code, GenerateOTP (addr 0) (Spec.counter 3333) test_world
                = Done (code, None, test_world)).
Proof.
  apply (GenerateOTP_error_iff_empty test_world 0%nat testToken (Spec.counter 3333)).
  reflexivity.
Defined.

(** C7.  Every token that [TokenFromBytes] constructs, and so every
    token of [NewToken], satisfies the invariant: its [Base32] is the
    RFC 4648 base-32 encoding of its [Seed], uppercased; for the secret
    65..84 that is "IFBEGRCFIZDUQSKKJNGE2TSPKBIVEU2U"; and no call of the
    package changes a field of an existing token, so the invariant, once
    true of the heap, stays true. *)
Theorem Token_display_encoding_invariant
    (wall : nat -> Time) (source : Z -> nat -> Z -> Z) :
  (forall seedBytes w,
     exists a tok w',
       TokenFromBytes seedBytes w = Done (addr a, None, w') /\
       heap w' !! a = Some tok /\ Seed tok = seedBytes /\
       Base32 tok = strings.ToUpper (RFC4648.encode seedBytes)) /\
  (forall w p e w',
     NewToken wall source w = Done (p, e, w') ->
     exists a tok, p = addr a /\ heap w' !! a = Some tok /\ encoded tok) /\
  (exists w',
     TokenFromBytes testSeedBytes start = Done (addr 0, None, w') /\
     Base32 <$> heap w' !! 0%nat = Some "IFBEGRCFIZDUQSKKJNGE2TSPKBIVEU2U") /\
  (forall c w r w',
     perform wall source c w = Done (r, w') ->
     (forall a tok, heap w !! a = Some tok -> heap w' !! a = Some tok) /\
     (Forall encoded (heap w) -> Forall encoded (heap w'))).
Proof.
  repeat apply conj.
  - intros seedBytes w.
    destruct (TokenFromBytes_result seedBytes w) as (w' & E & Hheap).
    eexists _, _, w'. split; [exact E|]. rewrite Hheap. split; [|split].
    + apply list_lookup_middle. reflexivity.
    + reflexivity.
    + apply encoded_TokenFromBytes.
  - intros w p e w' H. apply NewToken_result in H as (a & tok & -> & _ & Hl & He).
    eauto.
  - exists test_world. split; vm_compute; reflexivity.
  - intros c w r w' H.
    apply extends_perform in H as (fresh & -> & Hfresh). split.
    + intros a tok Hl. now apply lookup_app_l_Some.
    + intros Hall. apply Forall_app; auto.
Qed.

Lemma Token_display_encoding_invariant_witness :
  (forall a tok, heap start !! a = Some tok -> heap test_world !! a = Some tok) /\
  (Forall encoded (heap start) -> Forall encoded (heap test_world)).
Proof.
  apply (proj2 (proj2 (proj2
           (Token_display_encoding_invariant (frozen 100000) constant_source)))
           (CallTokenFromBytes testSeedBytes) start tt test_world).
  reflexivity.
Defined.

(** C8, as the code has it.  For every token with a non-empty secret,
    every non-empty counter and every [TokenLength] from 1 to 10000009
    (the largest width that [fmt] reads in a format), the code that
    [GenerateOTP] returns consists of exactly [TokenLength] decimal
    digits: the decimal rendering of the truncated value, left-padded
    with zeroes; 42 with length 6 is rendered "000042". *)
Theorem GenerateOTP_code_format
    (w : World) (a : nat) (tok : Token) (counterBytes : list byte) :
  heap w !! a = Some tok -> Seed tok <> [] -> counterBytes <> [] ->
  0 < TokenLength w <= 10000009 ->
  (exists code v,
     GenerateOTP (addr a) counterBytes w = Done (code, None, w) /\
     String.length code = Z.to_nat (TokenLength w) /\
     Spec.all_digits code = true /\
     0 <= v /\
     code = (fmt.padding "0" (Z.to_nat (TokenLength w) - String.length (fmt.decimal v))
               ++ fmt.decimal v)%string) /\
  fmt.Sprintf (fmt.Sprintf "%%0%dd" [6]) [42] = "000042".
Proof.
  intros Hload Hseed Hctr Hlen. split; [|reflexivity].
  set (v := Spec.binCode (HMAC.Sum (Seed tok) counterBytes) mod 10 ^ TokenLength w).
  assert (Hv : 0 <= v < 10 ^ TokenLength w)
    by (apply Z.mod_pos_bound, Z.pow_pos_nonneg; lia).
  exists (Spec.render (TokenLength w) v), v. repeat split.
  - rewrite (GenerateOTP_generate w a tok) by (assumption || lia).
    rewrite otp_code_generate by lia. reflexivity.
  - apply render_length; [lia | assumption].
  - apply render_all_digits. lia.
  - lia.
Qed.

Lemma GenerateOTP_code_format_witness :
  (exists code v,
     GenerateOTP (addr 0) (Spec.counter 3333) test_world = Done (code, None, test_world) /\
     String.length code = Z.to_nat (TokenLength test_world) /\
     Spec.all_digits code = true /\
     0 <= v /\
     code = (fmt.padding "0" (Z.to_nat (TokenLength test_world)
                              - String.length (fmt.decimal v))
               ++ fmt.decimal v)%string) /\
  fmt.Sprintf (fmt.Sprintf "%%0%dd" [6]) [42] = "000042".
Proof.
  apply (GenerateOTP_code_format test_world 0%nat testToken (Spec.counter 3333));
    [reflexivity | discriminate | discriminate | simpl; lia].
Defined.

(** C8, as the claim states it, fails for the positive code length
    10000010: [fmt] gives up reading a width once the number read
    exceeds 10^6, so the format [%010000010d] has no verb, and the
    string returned for the test secret and the counter 3333 is fmt's
    error text, 33 characters that are not all digits. *)
Lemma GenerateOTP_code_format_counterexample :
  heap (configured 30 10000010) !! 0%nat = Some testToken /\
  Seed testToken <> [] /\ Spec.counter 3333 <> [] /\
  0 < TokenLength (configured 30 10000010) /\
  fmt.Sprintf "%%0%dd" [TokenLength (configured 30 10000010)] = "%010000010d" /\
  exists code,
    GenerateOTP (addr 0) (Spec.counter 3333) (configured 30 10000010)
      = Done (code, None, configured 30 10000010) /\
    code = "%!(NOVERB)%!(EXTRA int=711111782)" /\
    Z.of_nat (String.length code) <> TokenLength (configured 30 10000010) /\
    Spec.all_digits code = false.
Proof.
  split; [reflexivity|]. split; [discriminate|]. split; [discriminate|].
  split; [reflexivity|]. split; [vm_compute; reflexivity|].
  exists "%!(NOVERB)%!(EXTRA int=711111782)".
  split; [vm_compute; reflexivity|]. split; [reflexivity|].
  split; [discriminate | reflexivity].
Qed.

(** C9.  Every index into the digest that the dynamic truncation of
    [GenerateOTP] uses is in bounds: the digest has 20 bytes, the offset
    is at most 15, so the bytes read lie at indices [offset] to
    [offset + 3 <= 18]; [GenerateOTP] never fails on an index out of
    range. *)
Theorem GenerateOTP_indices_in_bounds
    (w : World) (t : pointer) (key counterBytes : list byte) :
  let digest := HMAC.Sum key counterBytes in
  let offset := Z.land (Spec.at_ digest 19) 0x0F in
  length digest = 20%nat /\
  0 <= offset <= 15 /\
  offset + 3 <= 18 /\
  (forall i, offset <= i <= offset + 3 -> is_Some (digest !! Z.to_nat i)) /\
  is_Some (digest !! 19%nat) /\
  GenerateOTP t counterBytes w <> Panicked IndexOutOfRange.
Proof.
  intros digest offset.
  assert (Hl : length digest = 20%nat) by apply HMAC_Sum_length.
  pose proof (offset_range digest) as Ho. change (0 <= offset <= 15) in Ho.
  split; [exact Hl|]. split; [exact Ho|]. split; [lia|].
  split; [intros i Hi; apply lookup_lt_is_Some; lia|].
  split; [apply lookup_lt_is_Some; lia|].
  destruct t as [|a]; [discriminate|].
  destruct (heap w !! a) as [tok|] eqn:Hload.
  - destruct (Seed tok) as [|s0 seed] eqn:Eseed.
    + now rewrite (GenerateOTP_no_seed w a tok).
    + destruct counterBytes as [|c0 ctr] eqn:Ectr.
      * rewrite (GenerateOTP_no_counter w a tok); [discriminate | assumption |].
        rewrite Eseed. discriminate.
      * rewrite (GenerateOTP_truncate w a tok);
          [| assumption | rewrite Eseed; discriminate | discriminate].
        unfold bind, int_rem, throw, ret.
        destruct (int_Pow10 (TokenLength w) =? 0); discriminate.
  - unfold GenerateOTP, bind, load. rewrite Hload. discriminate.
Qed.

Lemma GenerateOTP_indices_in_bounds_witness :
  let digest := HMAC.Sum testSeedBytes (Spec.counter 3333) in
  let offset := Z.land (Spec.at_ digest 19) 0x0F in
  length digest = 20%nat /\
  0 <= offset <= 15 /\
  offset + 3 <= 18 /\
  (forall i, offset <= i <= offset + 3 -> is_Some (digest !! Z.to_nat i)) /\
  is_Some (digest !! 19%nat) /\
  GenerateOTP (addr 0) (Spec.counter 3333) test_world <> Panicked IndexOutOfRange.
Proof.
  exact (GenerateOTP_indices_in_bounds test_world (addr 0) testSeedBytes (Spec.counter 3333)).
Defined.

(** C10.  [TokenFromBytes] never fails: for every byte sequence, the
    empty one included, it returns a non-nil pointer to a token that
    holds the sequence as its [Seed], and a nil error. *)
Theorem TokenFromBytes_never_fails (seedBytes : list byte) (w : World) :
  exists a tok w',
    TokenFromBytes seedBytes w = Done (addr a, None, w') /\
    addr a <> null /\
    heap w' !! a = Some tok /\
    Seed tok = seedBytes.
Proof.
  destruct (TokenFromBytes_result seedBytes w) as (w' & E & Hheap).
  eexists _, _, w'. split; [exact E|]. split; [discriminate|].
  rewrite Hheap. split; [apply list_lookup_middle|]; reflexivity.
Qed.


(** * Further properties of the package *)

(** ** NewToken, explicitly *)

Lemma rune_at_ascii (k : Z) : 0 <= rune_at k < 128.
Proof.
  unfold rune_at. rewrite nth_lookup.
  destruct (runeCharacters !! Z.to_nat k) as [c|] eqn:E; simpl; [|lia].
  exact (proj1 (Forall_lookup _ _) runeCharacters_ascii _ _ E).
Qed.

Lemma utf8_rune_at (k : Z) : utf8 (rune_at k) = [to_byte (rune_at k)].
Proof.
  pose proof (rune_at_ascii k) as H. unfold utf8.
  destruct (rune_at k <? 0) eqn:E0; [apply Z.ltb_lt in E0; lia|].
  destruct (1114111 <? rune_at k) eqn:E1; [apply Z.ltb_lt in E1; lia|].
  destruct (55296 <=? rune_at k) eqn:E2; [apply Z.leb_le in E2; lia|].
  destruct (rune_at k <? 128) eqn:E3; [reflexivity | apply Z.ltb_ge in E3; lia].
Qed.

Lemma drawn_0 (w : World) : drawn 0 w = w.
Proof. destruct w. unfold drawn. cbn. now rewrite Nat.add_0_r. Qed.

Lemma drawn_S (n : nat) (w : World) : drawn n (drawn 1 w) = drawn (S n) w.
Proof. unfold drawn. cbn. f_equal. lia. Qed.

Section RandomSeed.

Variable wall : nat -> Time.
Variable source : Z -> nat -> Z -> Z.
Hypothesis source_range : forall seed k n, 0 < n -> 0 <= source seed k n < n.

Lemma seedRunes_step (j : nat) (seedRunes : list Z) (w : World) :
  (j < length seedRunes)%nat ->
  (k <- rand_Intn source (Z.of_nat (length runeCharacters)) ;;
   c <- index runeCharacters k ;;
   store seedRunes (Z.of_nat j) c) w
  = Done (<[j := rune_at (source (rand_seed w) (rand_draws w) 36)]> seedRunes,
          drawn 1 w).
Proof.
  intros Hj. change (Z.of_nat (length runeCharacters)) with 36.
  unfold bind at 1, rand_Intn at 1. change (36 <=? 0) with false. cbv iota.
  set (k := source (rand_seed w) (rand_draws w) 36).
  assert (Hk : 0 <= k < 36) by (apply source_range; lia).
  destruct (lookup_lt_is_Some_2 runeCharacters (Z.to_nat k)) as [c Hc].
  { change (length runeCharacters) with 36%nat. lia. }
  unfold bind at 1. rewrite (index_lookup runeCharacters k c) by (lia || assumption).
  unfold store.
  destruct ((0 <=? Z.of_nat j) && (Z.of_nat j <? Z.of_nat (length seedRunes))) eqn:E.
  - unfold ret. rewrite Nat2Z.id. unfold rune_at.
    rewrite (nth_lookup_Some _ _ 0 c Hc).
    unfold drawn. now rewrite Nat.add_1_r.
  - apply andb_false_iff in E as [E|E];
      [apply Z.leb_gt in E | apply Z.ltb_ge in E]; lia.
Qed.

Lemma seedRunes_loop_cons (j : nat) (range : list nat) (seedRunes : list Z) (w : World) :
  seedRunes_loop source (j :: range) seedRunes w =
  (seedRunes <- (k <- rand_Intn source (Z.of_nat (length runeCharacters)) ;;
                 c <- index runeCharacters k ;;
                 store seedRunes (Z.of_nat j) c) ;;
   seedRunes_loop source range seedRunes) w.
Proof.
  cbn [seedRunes_loop]. unfold bind.
  destruct (rand_Intn source (Z.of_nat (length runeCharacters)) w) as [[k w1]|p];
    [|reflexivity].
  destruct (index runeCharacters k w1) as [[c w2]|p]; reflexivity.
Qed.

Lemma seedRunes_loop_explicit (n j : nat) (seedRunes : list Z) (w : World) :
  (j + n <= length seedRunes)%nat ->
  seedRunes_loop source (seq j n) seedRunes w =
  Done ((take j seedRunes
         ++ map (fun k => rune_at (source (rand_seed w) (rand_draws w + k)%nat 36))
              (seq 0 n)
         ++ drop (j + n) seedRunes)%list,
        drawn n w).
Proof.
  revert j seedRunes w. induction n as [|n IH]; intros j seedRunes w Hj.
  - cbn [seq seedRunes_loop map app]. unfold ret.
    now rewrite Nat.add_0_r, take_drop, drawn_0.
  - cbn [seq]. rewrite seedRunes_loop_cons. unfold bind at 1.
    rewrite seedRunes_step by lia.
    rewrite IH by (rewrite length_insert; lia).
    rewrite drawn_S. f_equal. f_equal.
    set (c0 := rune_at (source (rand_seed w) (rand_draws w) 36)).
    rewrite (take_S_r _ _ c0) by (apply list_lookup_insert_eq; lia).
    rewrite take_insert_ge, drop_insert_lt by lia.
    rewrite <- app_assoc. f_equal. cbn [app map].
    rewrite <- seq_shift, map_map. cbn [drawn rand_seed rand_draws].
    rewrite Nat.add_0_r. fold c0. f_equal.
    replace (j + S n)%nat with (S j + n)%nat by lia. f_equal.
    apply map_ext. intros k'. do 2 f_equal. lia.
Qed.

Lemma flat_map_utf8_rune_at {A : Type} (f : A -> Z) (l : list A) :
  flat_map utf8 (map (fun k => rune_at (f k)) l)
  = map (fun k => to_byte (rune_at (f k))) l.
Proof.
  induction l as [|k l IH]; [reflexivity|].
  cbn [map flat_map]. now rewrite utf8_rune_at, IH.
Qed.

Lemma NewToken_explicit (w : World) :
  0 <= SeedLength w ->
  let w1 := seeded (UnixNano (wall (clock_reads w))) (tick w) in
  exists w',
    NewToken wall source w = Done (addr (length (heap w)), None, w') /\
    heap w' =
      (heap w ++
       [let seedBytes :=
          map (fun k => to_byte (rune_at
                 (source (rand_seed w1) (rand_draws w1 + k)%nat 36)))
            (seq 0 (Z.to_nat (SeedLength w))) in
        {| Seed := seedBytes;
           Base32 := strings.ToUpper (base32.EncodeToString seedBytes) |}])%list /\
    clock_reads w' = S (clock_reads w) /\
    rand_seed w' = rand_seed w1 /\
    rand_draws w' = (rand_draws w1 + Z.to_nat (SeedLength w))%nat /\
    StepSeconds w' = StepSeconds w /\ SeedLength w' = SeedLength w /\
    TokenLength w' = TokenLength w.
Proof.
  intros Hlen w1. unfold NewToken.
  unfold bind at 1, time_Now. unfold bind at 1, rand_Seed.
  unfold bind at 1, global. fold w1.
  assert (Hn : SeedLength w1 = SeedLength w)
    by exact (seeded_SeedLength _ (tick w)).
  destruct (seeded_frame (UnixNano (wall (clock_reads w))) (tick w))
    as (Hs & Ht & Hh & Hc & _).
  fold w1 in Hs, Ht, Hh, Hc. cbn [StepSeconds TokenLength heap clock_reads tick] in *.
  rewrite Hn. unfold bind at 1, make.
  destruct (SeedLength w <? 0) eqn:E; [apply Z.ltb_lt in E; lia|].
  unfold ret at 1. unfold bind at 1.
  set (n := Z.to_nat (SeedLength w)).
  rewrite length_replicate.
  rewrite (seedRunes_loop_explicit n 0) by (rewrite length_replicate; lia).
  rewrite take_0. cbn [app Nat.add].
  rewrite drop_ge by (rewrite length_replicate; lia).
  rewrite app_nil_r.
  rewrite (flat_map_utf8_rune_at
             (fun k => source (rand_seed w1) (rand_draws w1 + k)%nat 36)).
  eexists. split.
  { unfold TokenFromBytes, bind, new, ret, drawn. cbn [heap]. rewrite Hh.
    reflexivity. }
  unfold drawn.
  cbn [heap clock_reads rand_seed rand_draws StepSeconds SeedLength TokenLength].
  rewrite Hc, Hs, Ht, Hn. repeat split; reflexivity.
Qed.

End RandomSeed.

Lemma alphabet_bytes :
  bytes_of_string "1234567890ABCDEFGHIJKLMNOPQRSTUVWXYZ" = map to_byte runeCharacters.
Proof. vm_compute. reflexivity. Qed.

Lemma rune_at_alphabet (k : Z) :
  0 <= k < 36 ->
  In (to_byte (rune_at k)) (bytes_of_string "1234567890ABCDEFGHIJKLMNOPQRSTUVWXYZ").
Proof.
  intros Hk. rewrite alphabet_bytes. apply in_map. unfold rune_at.
  apply nth_In. change (length runeCharacters) with 36%nat. lia.
Qed.

(** X1.  On a host whose generator keeps [rand.Intn]'s range, and with
    [SeedLength] not negative, [NewToken] returns a non-nil token and a
    nil error; the token's seed has exactly [SeedLength] bytes, each one
    of the 36 characters [0-9A-Z]; the tokens already on the heap stay
    as they are. *)
Theorem NewToken_seed_length_and_alphabet
    (wall : nat -> Time) (source : Z -> nat -> Z -> Z) (w : World) :
  (forall seed k n, 0 < n -> 0 <= source seed k n < n) ->
  0 <= SeedLength w ->
  exists a tok w',
    NewToken wall source w = Done (addr a, None, w') /\
    heap w' !! a = Some tok /\
    Z.of_nat (length (Seed tok)) = SeedLength w /\
    List.Forall
      (fun b => In b (bytes_of_string "1234567890ABCDEFGHIJKLMNOPQRSTUVWXYZ"))
      (Seed tok) /\
    (forall a' tok', heap w !! a' = Some tok' -> heap w' !! a' = Some tok').
Proof.
  intros Hsrc Hlen.
  destruct (NewToken_explicit wall source Hsrc w Hlen) as (w' & E & Hheap & _).
  cbv zeta in Hheap.
  eexists _, _, w'. split; [exact E|]. rewrite Hheap. split; [|split; [|split]].
  - apply list_lookup_middle. reflexivity.
  - cbn [Seed]. rewrite length_map, length_seq. lia.
  - cbn [Seed]. apply List.Forall_forall. intros b Hb.
    apply in_map_iff in Hb as (k & <- & _). apply rune_at_alphabet, Hsrc. lia.
  - intros a' tok' Hl. now apply lookup_app_l_Some.
Qed.

Lemma NewToken_seed_length_and_alphabet_witness :
  exists a tok w',
    NewToken (frozen 100000) constant_source start = Done (addr a, None, w') /\
    heap w' !! a = Some tok /\
    Z.of_nat (length (Seed tok)) = SeedLength start /\
    List.Forall
      (fun b => In b (bytes_of_string "1234567890ABCDEFGHIJKLMNOPQRSTUVWXYZ"))
      (Seed tok) /\
    (forall a' tok', heap start !! a' = Some tok' -> heap w' !! a' = Some tok').
Proof.
  apply (NewToken_seed_length_and_alphabet (frozen 100000) constant_source start).
  - intros seed k n Hn. unfold constant_source. lia.
  - simpl. lia.
Defined.

(** X2.  In a process where [rand.Seed] reseeds the global generator
    (every Go before 1.24, and later ones run with [randseednop=0]),
    [NewToken] reseeds it with the nanosecond reading of the clock on
    every call, so the secret it produces is a function of that reading
    and of [SeedLength] alone: two calls that read the same nanosecond,
    in whatever states of such processes, produce tokens with the same
    seed and the same display encoding. *)
Theorem NewToken_seed_from_clock
    (wall1 wall2 : nat -> Time) (source : Z -> nat -> Z -> Z) (w1 w2 : World) :
  randseednop w1 = false -> randseednop w2 = false ->
  (forall seed k n, 0 < n -> 0 <= source seed k n < n) ->
  0 <= SeedLength w1 -> SeedLength w2 = SeedLength w1 ->
  UnixNano (wall2 (clock_reads w2)) = UnixNano (wall1 (clock_reads w1)) ->
  exists a1 tok1 w1' a2 tok2 w2',
    NewToken wall1 source w1 = Done (addr a1, None, w1') /\
    heap w1' !! a1 = Some tok1 /\
    NewToken wall2 source w2 = Done (addr a2, None, w2') /\
    heap w2' !! a2 = Some tok2 /\
    Seed tok1 = Seed tok2 /\ Base32 tok1 = Base32 tok2 /\
    rand_seed w1' = UnixNano (wall1 (clock_reads w1)) /\
    rand_draws w1' = Z.to_nat (SeedLength w1).
Proof.
  intros Hnop1 Hnop2 Hsrc Hlen Hsame Hnano.
  destruct (NewToken_explicit wall1 source Hsrc w1 Hlen)
    as (w1' & E1 & Hheap1 & _ & Hs & Hd & _).
  destruct (NewToken_explicit wall2 source Hsrc w2)
    as (w2' & E2 & Hheap2 & _); [lia|].
  destruct (seeded_reseeds (UnixNano (wall1 (clock_reads w1))) (tick w1) Hnop1)
    as [Hs1 Hd1].
  destruct (seeded_reseeds (UnixNano (wall2 (clock_reads w2))) (tick w2) Hnop2)
    as [Hs2 Hd2].
  cbv zeta in Hheap1, Hheap2.
  rewrite Hs1, Hd1 in Hheap1. rewrite Hs2, Hd2 in Hheap2.
  rewrite Hs1 in Hs. rewrite Hd1 in Hd. cbn [Nat.add] in Hheap1, Hheap2, Hd.
  eexists _, _, w1', _, _, w2'.
  split; [exact E1|]. split; [rewrite Hheap1; apply list_lookup_middle; reflexivity|].
  split; [exact E2|]. split; [rewrite Hheap2; apply list_lookup_middle; reflexivity|].
  rewrite Hsame, Hnano. repeat split; assumption.
Qed.

Lemma NewToken_seed_from_clock_witness :
  exists a1 tok1 w1' a2 tok2 w2',
    NewToken (frozen 100000) constant_source start = Done (addr a1, None, w1') /\
    heap w1' !! a1 = Some tok1 /\
    NewToken (frozen 100000) constant_source test_world = Done (addr a2, None, w2') /\
    heap w2' !! a2 = Some tok2 /\
    Seed tok1 = Seed tok2 /\ Base32 tok1 = Base32 tok2 /\
    rand_seed w1' = UnixNano (frozen 100000 (clock_reads start)) /\
    rand_draws w1' = Z.to_nat (SeedLength start).
Proof.
  apply (NewToken_seed_from_clock (frozen 100000) (frozen 100000) constant_source
           start test_world).
  - reflexivity.
  - reflexivity.
  - intros seed k n Hn. unfold constant_source. lia.
  - simpl. lia.
  - reflexivity.
  - reflexivity.
Defined.

(** X3.  With a negative [SeedLength], [NewToken] panics in
    [make([]rune, SeedLength)]; it returns neither a token nor an
    error. *)
Theorem NewToken_negative_SeedLength
    (wall : nat -> Time) (source : Z -> nat -> Z -> Z) (w : World) :
  SeedLength w < 0 -> NewToken wall source w = Panicked MakeLenOutOfRange.
Proof.
  intros Hlen. unfold NewToken, bind, time_Now, rand_Seed, global, make.
  rewrite seeded_SeedLength. cbn [SeedLength tick].
  destruct (SeedLength w <? 0) eqn:E; [reflexivity | apply Z.ltb_ge in E; lia].
Qed.

Lemma NewToken_negative_SeedLength_witness :
  NewToken (frozen 100000) constant_source
    {| StepSeconds := 30; SeedLength := -1; TokenLength := 6; heap := [];
       clock_reads := 0; rand_seed := 1; rand_draws := 0;
       randseednop := false |}
  = Panicked MakeLenOutOfRange.
Proof.
  apply (NewToken_negative_SeedLength (frozen 100000) constant_source).
  simpl. lia.
Defined.

(** X24.  In a process where [rand.Seed] does nothing (the default
    since Go 1.24) the clock has no part in the secret: [NewToken] draws
    it from the global generator where it stands, leaves the generator's
    seed as it is and advances it by [SeedLength] draws, and the same
    call under any other clock produces the same secret. *)
Theorem NewToken_without_reseeding
    (wall1 wall2 : nat -> Time) (source : Z -> nat -> Z -> Z) (w : World) :
  randseednop w = true ->
  (forall seed k n, 0 < n -> 0 <= source seed k n < n) ->
  0 <= SeedLength w ->
  exists a tok w1' w2',
    NewToken wall1 source w = Done (addr a, None, w1') /\
    NewToken wall2 source w = Done (addr a, None, w2') /\
    heap w1' !! a = Some tok /\ heap w2' !! a = Some tok /\
    Seed tok =
      map (fun k => to_byte (nth (Z.to_nat (source (rand_seed w) (rand_draws w + k)%nat 36))
                               runeCharacters 0))
        (seq 0 (Z.to_nat (SeedLength w))) /\
    rand_seed w1' = rand_seed w /\
    rand_draws w1' = (rand_draws w + Z.to_nat (SeedLength w))%nat.
Proof.
  intros Hnop Hsrc Hlen.
  destruct (NewToken_explicit wall1 source Hsrc w Hlen)
    as (w1' & E1 & Hheap1 & _ & Hs & Hd & _).
  destruct (NewToken_explicit wall2 source Hsrc w Hlen)
    as (w2' & E2 & Hheap2 & _).
  cbv zeta in Hheap1, Hheap2.
  rewrite (seeded_nop _ (tick w) Hnop) in Hheap1, Hs, Hd.
  rewrite (seeded_nop _ (tick w) Hnop) in Hheap2.
  cbn [tick rand_seed rand_draws] in Hheap1, Hheap2, Hs, Hd.
  eexists _, _, w1', w2'.
  split; [exact E1|]. split; [exact E2|].
  split; [rewrite Hheap1; apply list_lookup_middle; reflexivity|].
  split; [rewrite Hheap2; apply list_lookup_middle; reflexivity|].
  split; [reflexivity|]. split; assumption.
Qed.

Lemma NewToken_without_reseeding_witness :
  let w := {| StepSeconds := 30; SeedLength := 20; TokenLength := 6; heap := [];
              clock_reads := 0; rand_seed := 1; rand_draws := 0;
              randseednop := true |} in
  exists a tok w1' w2',
    NewToken (frozen 100000) constant_source w = Done (addr a, None, w1') /\
    NewToken (frozen 5) constant_source w = Done (addr a, None, w2') /\
    heap w1' !! a = Some tok /\ heap w2' !! a = Some tok /\
    Seed tok =
      map (fun k => to_byte (nth (Z.to_nat (constant_source (rand_seed w) (rand_draws w + k)%nat 36))
                               runeCharacters 0))
        (seq 0 (Z.to_nat (SeedLength w))) /\
    rand_seed w1' = rand_seed w /\
    rand_draws w1' = (rand_draws w + Z.to_nat (SeedLength w))%nat.
Proof.
  intros w.
  apply (NewToken_without_reseeding (frozen 100000) (frozen 5) constant_source w).
  - reflexivity.
  - intros seed k n Hn. unfold constant_source. lia.
  - simpl. lia.
Defined.

(** ** Errors and panics *)

Lemma GenerateTOTP_zero_step (w : World) (t : pointer) (genTime : Z) :
  StepSeconds w = 0 -> GenerateTOTP t genTime w = Panicked DivideByZero.
Proof.
  intros Hs. unfold GenerateTOTP, bind, global, int_quo. now rewrite Hs.
Qed.

Lemma VerifyChallenge_panics
    (wall : nat -> Time) (w : World) (t : pointer) (challenge : string)
    (drift : bool) (p : panic) :
  (forall genTime, GenerateTOTP t genTime (tick w) = Panicked p) ->
  VerifyChallenge wall t challenge drift w = Panicked p.
Proof.
  intros H. unfold VerifyChallenge.
  destruct drift; unfold bind, global, ret, time_Now; cbn [app otps_loop];
    unfold bind, time_Now; now rewrite H.
Qed.

Lemma GenerateTOTP_negative_length (w : World) (a : nat) (tok : Token) (genTime : Z) :
  heap w !! a = Some tok -> Seed tok <> [] -> StepSeconds w <> 0 ->
  TokenLength w < 0 ->
  GenerateTOTP (addr a) genTime w = Panicked DivideByZero.
Proof.
  intros Hload Hseed Hs Hn. rewrite GenerateTOTP_counter by assumption.
  apply (GenerateOTP_negative_length w a tok); auto using counter_nonempty.
Qed.

(** X4.  The two errors of [GenerateOTP], and their order: with an empty
    seed it returns the empty code and "OTP has no seed.", whether or
    not the counter is empty as well; with a seed and an empty counter
    it returns the empty code and "Counter is nil or otherwise
    malformed.".  Both checks come before [TokenLength] is read, so they
    hold for every value of it. *)
Theorem GenerateOTP_error_messages
    (w : World) (a : nat) (tok : Token) (counterBytes : list byte) :
  heap w !! a = Some tok ->
  (Seed tok = [] ->
   GenerateOTP (addr a) counterBytes w = Done ("", Some "OTP has no seed.", w)) /\
  (Seed tok <> [] -> counterBytes = [] ->
   GenerateOTP (addr a) counterBytes w
   = Done ("", Some "Counter is nil or otherwise malformed.", w)).
Proof.
  intros Hload. split.
  - intros Hseed. now apply (GenerateOTP_no_seed w a tok).
  - intros Hseed ->. now apply (GenerateOTP_no_counter w a tok).
Qed.

Lemma GenerateOTP_error_messages_witness :
  (Seed seedless = [] ->
   GenerateOTP (addr 1) [] (configured 30 (-1))
   = Done ("", Some "OTP has no seed.", configured 30 (-1))) /\
  (Seed seedless <> [] -> @nil byte = [] ->
   GenerateOTP (addr 1) [] (configured 30 (-1))
   = Done ("", Some "Counter is nil or otherwise malformed.", configured 30 (-1))).
Proof.
  apply (GenerateOTP_error_messages (configured 30 (-1)) 1%nat seedless []).
  reflexivity.
Defined.

(** X5.  [GenerateTOTP] always hands an 8-byte counter on, so (with
    [StepSeconds] not 0) the only error it can return is "OTP has no
    seed.", and it returns it exactly for a token with an empty seed. *)
Theorem GenerateTOTP_only_error
    (w : World) (a : nat) (tok : Token) (genTime : Z) :
  heap w !! a = Some tok -> StepSeconds w <> 0 ->
  (Seed tok = [] ->
   GenerateTOTP (addr a) genTime w = Done ("", Some "OTP has no seed.", w)) /\
  (forall code msg w',
     GenerateTOTP (addr a) genTime w = Done (code, Some msg, w') ->
     Seed tok = [] /\ code = "" /\ msg = "OTP has no seed.").
Proof.
  intros Hload Hs. split.
  - intros Hseed. rewrite GenerateTOTP_counter by assumption.
    now apply (GenerateOTP_no_seed w a tok).
  - intros code msg w' H.
    destruct (Seed tok) as [|s0 seed] eqn:Eseed.
    + rewrite GenerateTOTP_counter in H by assumption.
      rewrite (GenerateOTP_no_seed w a tok) in H by assumption.
      inversion H. auto.
    + exfalso. destruct (Z_lt_le_dec (TokenLength w) 0) as [Hneg|Hpos].
      * rewrite (GenerateTOTP_negative_length w a tok) in H;
          [discriminate | assumption | rewrite Eseed; discriminate
          | assumption | assumption].
      * rewrite (GenerateTOTP_totp w a tok) in H;
          [discriminate | assumption | rewrite Eseed; discriminate
          | assumption | assumption].
Qed.

Lemma GenerateTOTP_only_error_witness :
  (Seed testToken = [] ->
   GenerateTOTP (addr 0) 100000 test_world
   = Done ("", Some "OTP has no seed.", test_world)) /\
  (forall code msg w',
     GenerateTOTP (addr 0) 100000 test_world = Done (code, Some msg, w') ->
     Seed testToken = [] /\ code = "" /\ msg = "OTP has no seed.").
Proof.
  apply (GenerateTOTP_only_error test_world 0%nat testToken 100000).
  - reflexivity.
  - simpl. lia.
Defined.

(** X6.  With [StepSeconds] set to 0, [GenerateTOTP] panics with an
    integer division by zero for every receiver and every time, before
    it looks at the token; [VerifyChallenge] does not turn this into
    [false]: it panics as well. *)
Theorem zero_StepSeconds_panics
    (wall : nat -> Time) (w : World) (t : pointer) (genTime : Z)
    (challenge : string) (drift : bool) :
  StepSeconds w = 0 ->
  GenerateTOTP t genTime w = Panicked DivideByZero /\
  VerifyChallenge wall t challenge drift w = Panicked DivideByZero.
Proof.
  intros Hs. split.
  - now apply GenerateTOTP_zero_step.
  - apply VerifyChallenge_panics. intros g. now apply GenerateTOTP_zero_step.
Qed.

Lemma zero_StepSeconds_panics_witness :
  GenerateTOTP (addr 0) 100000 (configured 0 6) = Panicked DivideByZero /\
  VerifyChallenge (frozen 100000) (addr 0) "111782" true (configured 0 6)
  = Panicked DivideByZero.
Proof.
  apply (zero_StepSeconds_panics (frozen 100000) (configured 0 6) (addr 0) 100000
           "111782" true).
  reflexivity.
Defined.

(** X7.  With a negative [TokenLength] the modulus
    [int(math.Pow10(TokenLength))] is 0: for a token with a seed,
    [GenerateOTP] (with a counter), [GenerateTOTP] and [VerifyChallenge]
    all panic with an integer division by zero. *)
Theorem negative_TokenLength_panics
    (wall : nat -> Time) (w : World) (a : nat) (tok : Token)
    (counterBytes : list byte) (genTime : Z) (challenge : string) (drift : bool) :
  heap w !! a = Some tok -> Seed tok <> [] -> TokenLength w < 0 ->
  (counterBytes <> [] ->
   GenerateOTP (addr a) counterBytes w = Panicked DivideByZero) /\
  GenerateTOTP (addr a) genTime w = Panicked DivideByZero /\
  VerifyChallenge wall (addr a) challenge drift w = Panicked DivideByZero.
Proof.
  intros Hload Hseed Hn.
  assert (Htotp : forall w0 g, heap w0 = heap w -> TokenLength w0 = TokenLength w ->
            StepSeconds w0 = StepSeconds w ->
            GenerateTOTP (addr a) g w0 = Panicked DivideByZero).
  { intros w0 g Hh Ht Hs0. destruct (Z.eq_dec (StepSeconds w0) 0) as [Hz|Hnz].
    - now apply GenerateTOTP_zero_step.
    - apply (GenerateTOTP_negative_length w0 a tok); try assumption.
      + now rewrite Hh.
      + now rewrite Ht. }
  split; [|split].
  - intros Hctr. now apply (GenerateOTP_negative_length w a tok).
  - now apply Htotp.
  - apply VerifyChallenge_panics. intros g. now apply Htotp.
Qed.

Lemma negative_TokenLength_panics_witness :
  (Spec.counter 3333 <> [] ->
   GenerateOTP (addr 0) (Spec.counter 3333) (configured 30 (-1))
   = Panicked DivideByZero) /\
  GenerateTOTP (addr 0) 100000 (configured 30 (-1)) = Panicked DivideByZero /\
  VerifyChallenge (frozen 100000) (addr 0) "111782" false (configured 30 (-1))
  = Panicked DivideByZero.
Proof.
  apply (negative_TokenLength_panics (frozen 100000) (configured 30 (-1)) 0%nat
           testToken (Spec.counter 3333) 100000 "111782" false).
  - reflexivity.
  - discriminate.
  - simpl. lia.
Defined.

Lemma GenerateTOTP_bad_pointer (w : World) (t : pointer) (genTime : Z) :
  match t with null => True | addr a => heap w !! a = None end ->
  GenerateTOTP t genTime w
  = Panicked (if StepSeconds w =? 0 then DivideByZero else NilDereference).
Proof.
  intros Ht. destruct (StepSeconds w =? 0) eqn:E.
  - apply GenerateTOTP_zero_step. now apply Z.eqb_eq.
  - apply Z.eqb_neq in E. rewrite GenerateTOTP_counter by assumption.
    unfold GenerateOTP, bind, load. destruct t as [|a]; [reflexivity|].
    now rewrite Ht.
Qed.

(** X8.  The methods dereference their receiver: on a nil [*Token],
    [GenerateOTP] panics with a nil dereference, and so do
    [GenerateTOTP] and [VerifyChallenge] when [StepSeconds] is not 0;
    none of them returns an error or [false]. *)
Theorem nil_receiver_panics
    (wall : nat -> Time) (w : World) (counterBytes : list byte) (genTime : Z)
    (challenge : string) (drift : bool) :
  GenerateOTP null counterBytes w = Panicked NilDereference /\
  (StepSeconds w <> 0 ->
   GenerateTOTP null genTime w = Panicked NilDereference /\
   VerifyChallenge wall null challenge drift w = Panicked NilDereference).
Proof.
  split; [reflexivity|]. intros Hs.
  assert (E : (StepSeconds w =? 0) = false) by now apply Z.eqb_neq.
  split.
  - rewrite (GenerateTOTP_bad_pointer w null) by exact I. now rewrite E.
  - apply VerifyChallenge_panics. intros g.
    rewrite (GenerateTOTP_bad_pointer (tick w) null) by exact I.
    cbn [StepSeconds tick]. now rewrite E.
Qed.

Lemma nil_receiver_panics_witness :
  GenerateOTP null (Spec.counter 3333) test_world = Panicked NilDereference /\
  (StepSeconds test_world <> 0 ->
   GenerateTOTP null 100000 test_world = Panicked NilDereference /\
   VerifyChallenge (frozen 100000) null "111782" true test_world
   = Panicked NilDereference).
Proof.
  exact (nil_receiver_panics (frozen 100000) test_world (Spec.counter 3333) 100000
           "111782" true).
Defined.

(** ** Code lengths at the edges *)

(** X9.  With [TokenLength] 0 the modulus is 1 and the format is
    [%00d]: for every token with a seed and every counter [GenerateOTP]
    returns the one-character code "0", never an empty code. *)
Theorem zero_TokenLength_code
    (w : World) (a : nat) (tok : Token) (counterBytes : list byte) :
  heap w !! a = Some tok -> Seed tok <> [] -> counterBytes <> [] ->
  TokenLength w = 0 ->
  GenerateOTP (addr a) counterBytes w = Done ("0", None, w).
Proof.
  intros Hload Hseed Hctr Hn.
  rewrite (GenerateOTP_generate w a tok) by (assumption || lia).
  rewrite otp_code_generate by lia.
  unfold Spec.generate. rewrite Hn. change (10 ^ 0) with 1.
  now rewrite Z.mod_1_r.
Qed.

Lemma zero_TokenLength_code_witness :
  GenerateOTP (addr 0) (Spec.counter 3333) (configured 30 0)
  = Done ("0", None, configured 30 0).
Proof.
  apply (zero_TokenLength_code (configured 30 0) 0%nat testToken (Spec.counter 3333));
    [reflexivity | discriminate | discriminate | reflexivity].
Defined.

Lemma padding_add (c : ascii) (m n : nat) :
  fmt.padding c (m + n) = (fmt.padding c m ++ fmt.padding c n)%string.
Proof. induction m as [|m IH]; simpl; [reflexivity | now rewrite IH]. Qed.

(** X10.  The truncated value has 31 bits, so from ten digits on the
    modulus no longer reduces it: for [10 <= TokenLength <= 18] the code
    is the whole [binCode], below 2^31, behind zeroes; its first
    [TokenLength - 10] characters are always "0" and carry no
    information. *)
Theorem long_TokenLength_code
    (w : World) (a : nat) (tok : Token) (counterBytes : list byte) :
  heap w !! a = Some tok -> Seed tok <> [] -> counterBytes <> [] ->
  10 <= TokenLength w <= 18 ->
  exists code rest,
    GenerateOTP (addr a) counterBytes w = Done (code, None, w) /\
    Spec.value code = Some (Spec.binCode (HMAC.Sum (Seed tok) counterBytes)) /\
    Spec.binCode (HMAC.Sum (Seed tok) counterBytes) < 2 ^ 31 /\
    code = (fmt.padding "0" (Z.to_nat (TokenLength w - 10)) ++ rest)%string /\
    String.length rest = 10%nat.
Proof.
  intros Hload Hseed Hctr Hn.
  set (b := Spec.binCode (HMAC.Sum (Seed tok) counterBytes)).
  pose proof (binCode_range (HMAC.Sum (Seed tok) counterBytes)) as Hb. fold b in Hb.
  assert (H10 : 10 ^ 10 <= 10 ^ TokenLength w) by (apply Z.pow_le_mono_r; lia).
  assert (Hmod : b mod 10 ^ TokenLength w = b) by (apply Z.mod_small; lia).
  pose proof (decimal_length b (proj1 Hb) 10) as Hd.
  exists (Spec.render (TokenLength w) b),
    (fmt.padding "0" (10 - String.length (fmt.decimal b)) ++ fmt.decimal b)%string.
  split; [|split; [|split; [|split]]].
  - rewrite (GenerateOTP_generate w a tok) by (assumption || lia).
    rewrite otp_code_generate by lia.
    unfold Spec.generate. fold b. now rewrite Hmod.
  - apply render_value. lia.
  - lia.
  - unfold Spec.render. rewrite <- append_assoc, <- padding_add. do 2 f_equal. lia.
  - rewrite append_length, padding_length. lia.
Qed.

Lemma long_TokenLength_code_witness :
  exists code rest,
    GenerateOTP (addr 0) (Spec.counter 3333) (configured 30 12)
    = Done (code, None, configured 30 12) /\
    Spec.value code = Some (Spec.binCode (HMAC.Sum (Seed testToken) (Spec.counter 3333))) /\
    Spec.binCode (HMAC.Sum (Seed testToken) (Spec.counter 3333)) < 2 ^ 31 /\
    code = (fmt.padding "0" (Z.to_nat (TokenLength (configured 30 12) - 10)) ++ rest)%string /\
    String.length rest = 10%nat.
Proof.
  apply (long_TokenLength_code (configured 30 12) 0%nat testToken (Spec.counter 3333));
    [reflexivity | discriminate | discriminate | simpl; lia].
Defined.

(** ** Time steps *)

(** X11.  A code holds for a whole step: for a positive [StepSeconds],
    two times at or after the epoch with the same
    [floor (time / StepSeconds)] make [GenerateTOTP] return the same
    result, for every receiver. *)
Theorem GenerateTOTP_constant_within_step
    (w : World) (t : pointer) (genTime genTime' : Z) :
  0 < StepSeconds w -> 0 <= genTime -> 0 <= genTime' ->
  genTime / StepSeconds w = genTime' / StepSeconds w ->
  GenerateTOTP t genTime w = GenerateTOTP t genTime' w.
Proof.
  intros Hs Hg Hg' Heq. rewrite !GenerateTOTP_counter by lia.
  rewrite !Z.quot_div_nonneg by lia. now rewrite Heq.
Qed.

Lemma GenerateTOTP_constant_within_step_witness :
  GenerateTOTP (addr 0) 99990 test_world = GenerateTOTP (addr 0) 100019 test_world.
Proof.
  apply (GenerateTOTP_constant_within_step test_world (addr 0) 99990 100019).
  - simpl. lia.
  - lia.
  - lia.
  - reflexivity.
Defined.

(** X12.  Go's division truncates toward zero, so the step of the epoch
    is twice as long as the others: every time strictly between
    [-StepSeconds] and [StepSeconds] makes [GenerateTOTP] return what it
    returns for time 0. *)
Theorem GenerateTOTP_epoch_step (w : World) (t : pointer) (genTime : Z) :
  0 < StepSeconds w -> - StepSeconds w < genTime < StepSeconds w ->
  GenerateTOTP t genTime w = GenerateTOTP t 0 w.
Proof.
  intros Hs Hg. rewrite !GenerateTOTP_counter by lia.
  rewrite Z.quot_0_l by lia.
  destruct (Z_le_gt_dec 0 genTime) as [Hpos|Hneg].
  - now rewrite Z.quot_small by lia.
  - replace genTime with (- - genTime) by lia.
    rewrite Z.quot_opp_l by lia. now rewrite Z.quot_small by lia.
Qed.

Lemma GenerateTOTP_epoch_step_witness :
  GenerateTOTP (addr 0) (-29) test_world = GenerateTOTP (addr 0) 0 test_world.
Proof.
  apply (GenerateTOTP_epoch_step test_world (addr 0) (-29)); simpl; lia.
Defined.

(** ** VerifyChallenge, for every receiver, clock and configuration *)

Lemma VerifyChallenge_cases
    (wall : nat -> Time) (w : World) (t : pointer) (challenge : string) (drift : bool) :
  (exists p, VerifyChallenge wall t challenge drift w = Panicked p) \/
  (exists a tok,
     t = addr a /\ heap w !! a = Some tok /\ Seed tok = [] /\
     VerifyChallenge wall t challenge drift w = Done (false, tick w)) \/
  (exists a tok otps,
     t = addr a /\ heap w !! a = Some tok /\ Seed tok <> [] /\
     StepSeconds w <> 0 /\ 0 <= TokenLength w /\
     otps =
       totp w tok (wrap64 (Unix (wall (clock_reads w)) + 0))
       :: (if drift then
             [totp w tok (wrap64 (Unix (wall (S (clock_reads w)))
                                  + wrap64 (-1 * StepSeconds w)));
              totp w tok (wrap64 (Unix (wall (S (S (clock_reads w))))
                                  + StepSeconds w))]
           else []) /\
     VerifyChallenge wall t challenge drift w =
     Done (match_loop otps challenge,
           if drift then tick (tick (tick w)) else tick w)).
Proof.
  destruct (Z.eq_dec (StepSeconds w) 0) as [Hz|Hs].
  { left. eexists. apply VerifyChallenge_panics. intros g.
    now apply GenerateTOTP_zero_step. }
  assert (Hbad : match t with null => True | addr a => heap w !! a = None end ->
                 exists p, VerifyChallenge wall t challenge drift w = Panicked p).
  { intros Ht. eexists. apply VerifyChallenge_panics. intros g.
    now apply GenerateTOTP_bad_pointer. }
  destruct t as [|a]; [left; now apply Hbad|].
  destruct (heap w !! a) as [tok|] eqn:Hload; [|left; now apply Hbad].
  destruct (Seed tok) as [|s0 seed] eqn:Eseed.
  { right. left. exists a, tok. repeat split; try assumption.
    now apply (VerifyChallenge_no_seed wall w a tok). }
  assert (Hseed : Seed tok <> []) by (rewrite Eseed; discriminate).
  destruct (Z_lt_le_dec (TokenLength w) 0) as [Hneg|Hlen].
  { left. eexists. apply VerifyChallenge_panics. intros g.
    now apply (GenerateTOTP_negative_length (tick w) a tok). }
  right. right. exists a, tok. eexists.
  split; [reflexivity|]. split; [assumption|]. split; [assumption|].
  split; [assumption|]. split; [assumption|]. split; [reflexivity|].
  destruct drift.
  - now apply VerifyChallenge_window.
  - now apply VerifyChallenge_single.
Qed.

Lemma totp_shape (w : World) (tok : Token) (genTime : Z) :
  0 < TokenLength w <= 10000009 ->
  String.length (totp w tok genTime) = Z.to_nat (TokenLength w) /\
  Spec.all_digits (totp w tok genTime) = true.
Proof.
  intros Hn. unfold totp. rewrite otp_code_generate by lia. unfold Spec.generate.
  assert (Hp : 0 < 10 ^ TokenLength w) by (apply Z.pow_pos_nonneg; lia).
  pose proof (Z.mod_pos_bound
    (Spec.binCode (HMAC.Sum (Seed tok)
       (Spec.counter (wrap64 (Z.quot genTime (StepSeconds w))))))
    (10 ^ TokenLength w) Hp) as Hv.
  split; [apply render_length; [lia | assumption] | apply render_all_digits; lia].
Qed.

Lemma match_loop_In (otps : list string) (challenge : string) :
  match_loop otps challenge = true <-> In challenge otps.
Proof.
  induction otps as [|otp otps IH]; cbn [match_loop In]; [split; [discriminate|tauto]|].
  destruct (String.eqb_spec otp challenge) as [->|Hne]; [tauto|].
  rewrite IH. intuition congruence.
Qed.

(** X13.  Whatever the receiver, the clock and [StepSeconds], when
    [VerifyChallenge] returns [true] and [TokenLength] lies between 1
    and 10000009 (the largest width that [fmt] reads in a format), the
    challenge consists of exactly [TokenLength] decimal digits: a
    challenge of another length, or with another character, is never
    accepted. *)
Theorem VerifyChallenge_accepts_only_codes
    (wall : nat -> Time) (w w' : World) (t : pointer) (challenge : string)
    (drift : bool) :
  0 < TokenLength w <= 10000009 ->
  VerifyChallenge wall t challenge drift w = Done (true, w') ->
  String.length challenge = Z.to_nat (TokenLength w) /\
  Spec.all_digits challenge = true.
Proof.
  intros Hn H.
  destruct (VerifyChallenge_cases wall w t challenge drift)
    as [[p E] | [(a & tok & _ & _ & _ & E)
                | (a & tok & otps & _ & _ & _ & _ & _ & Hotps & E)]];
    rewrite E in H; try discriminate.
  injection H as Hm Hw. apply match_loop_In in Hm. subst otps.
  destruct drift; cbn [In] in Hm;
    repeat (destruct Hm as [<-|Hm]; [now apply totp_shape|]); contradiction.
Qed.

Lemma VerifyChallenge_accepts_only_codes_witness :
  String.length "111782" = Z.to_nat (TokenLength test_world) /\
  Spec.all_digits "111782" = true.
Proof.
  apply (VerifyChallenge_accepts_only_codes (frozen 100000) test_world
           (tick (tick (tick test_world))) (addr 0) "111782" true).
  - simpl. lia.
  - vm_compute. reflexivity.
Defined.

(** X14.  Drift only widens the window: whatever the receiver, the
    clock and the package variables, a challenge that [VerifyChallenge]
    accepts without drift it accepts with drift, from the same process
    state. *)
Theorem VerifyChallenge_drift_accepts_more
    (wall : nat -> Time) (w w1 : World) (t : pointer) (challenge : string) :
  VerifyChallenge wall t challenge false w = Done (true, w1) ->
  exists w3, VerifyChallenge wall t challenge true w = Done (true, w3).
Proof.
  intros H.
  destruct (VerifyChallenge_cases wall w t challenge false)
    as [[p E] | [(a & tok & _ & _ & _ & E)
                | (a & tok & otps & -> & Hl & Hseed & Hs & Hn & Hotps & E)]];
    rewrite E in H; try discriminate.
  injection H as Hm Hw. apply match_loop_In in Hm. subst otps.
  destruct Hm as [Hm|[]]. eexists.
  rewrite (VerifyChallenge_window wall w a tok) by assumption.
  do 2 f_equal. apply match_loop_In. now left.
Qed.

Lemma VerifyChallenge_drift_accepts_more_witness :
  exists w3,
    VerifyChallenge (frozen 100000) (addr 0) "111782" true test_world = Done (true, w3).
Proof.
  apply (VerifyChallenge_drift_accepts_more (frozen 100000) test_world
           (tick test_world) (addr 0) "111782").
  vm_compute. reflexivity.
Defined.

(** X15.  What a call of [VerifyChallenge] that returns does to the
    process state: it reads the clock once without drift, three times
    with drift, and only once when the token has no seed (it leaves at
    the first failed generation); the package variables, the heap and
    the generator stay as they are. *)
Theorem VerifyChallenge_clock_readings
    (wall : nat -> Time) (w w' : World) (a : nat) (tok : Token)
    (challenge : string) (drift b : bool) :
  heap w !! a = Some tok ->
  VerifyChallenge wall (addr a) challenge drift w = Done (b, w') ->
  w' = (if drift && negb (length (Seed tok) =? 0)%nat
        then tick (tick (tick w)) else tick w).
Proof.
  intros Hload H.
  destruct (VerifyChallenge_cases wall w (addr a) challenge drift)
    as [[p E] | [(a' & tok' & Ha & Hl & Hseed & E)
                | (a' & tok' & otps & Ha & Hl & Hseed & Hs & Hn & Hotps & E)]];
    rewrite E in H; try discriminate;
    injection Ha as <-; rewrite Hload in Hl; injection Hl as <-.
  - rewrite Hseed. cbn [length Nat.eqb negb]. rewrite andb_false_r.
    now injection H as _ <-.
  - destruct (Seed tok) as [|s0 seed]; [congruence|]. cbn [length Nat.eqb negb].
    rewrite andb_true_r. now injection H as _ <-.
Qed.

Lemma VerifyChallenge_clock_readings_witness :
  tick (configured 30 6) =
  (if true && negb (length (Seed seedless) =? 0)%nat
   then tick (tick (tick (configured 30 6))) else tick (configured 30 6)).
Proof.
  apply (VerifyChallenge_clock_readings (frozen 100000) (configured 30 6)
           (tick (configured 30 6)) 1%nat seedless "111782" true false).
  - reflexivity.
  - vm_compute. reflexivity.
Defined.

(** X16.  Generate, then verify: a code that [GenerateTOTP] returns for
    a time in the step that the clock shows is accepted by
    [VerifyChallenge] without drift (times at or after the epoch,
    positive [StepSeconds], a token with a seed). *)
Theorem generated_code_verifies
    (wall : nat -> Time) (w : World) (a : nat) (tok : Token) (genTime : Z) :
  heap w !! a = Some tok -> Seed tok <> [] ->
  0 < StepSeconds w -> 0 <= TokenLength w ->
  0 <= Unix (wall (clock_reads w)) <= max_int64 -> 0 <= genTime ->
  genTime / StepSeconds w = Unix (wall (clock_reads w)) / StepSeconds w ->
  exists code w',
    GenerateTOTP (addr a) genTime w = Done (code, None, w) /\
    VerifyChallenge wall (addr a) code false w = Done (true, w').
Proof.
  intros Hload Hseed Hs Hn Ht Hg Hstep.
  exists (totp w tok genTime). eexists.
  rewrite (GenerateTOTP_totp w a tok) by (assumption || lia).
  rewrite (VerifyChallenge_single wall w a tok) by (assumption || lia).
  split; [reflexivity|]. do 2 f_equal. apply match_loop_In. left.
  unfold totp. do 3 f_equal. rewrite Z.add_0_r.
  rewrite wrap64_id by (unfold in_int64, min_int64, max_int64 in *; lia).
  rewrite !Z.quot_div_nonneg by lia. now symmetry.
Qed.

Lemma generated_code_verifies_witness :
  exists code w',
    GenerateTOTP (addr 0) 99990 test_world = Done (code, None, test_world) /\
    VerifyChallenge (frozen 100019) (addr 0) code false test_world = Done (true, w').
Proof.
  apply (generated_code_verifies (frozen 100019) test_world 0%nat testToken 99990).
  - reflexivity.
  - discriminate.
  - simpl. lia.
  - simpl. lia.
  - unfold max_int64. simpl. lia.
  - lia.
  - reflexivity.
Defined.

(** X17.  Generate, then verify with drift: when the clock shows [t] at
    all three readings, a code that [GenerateTOTP] returns for a time
    whose step is the step of [t], the one before or the one after is
    accepted by [VerifyChallenge] with drift (times at or after the
    epoch, [StepSeconds <= t], no overflow of [t + StepSeconds]). *)
Theorem generated_code_verifies_with_drift
    (wall : nat -> Time) (w : World) (a : nat) (tok : Token) (t genTime : Z) :
  heap w !! a = Some tok -> Seed tok <> [] ->
  0 < StepSeconds w -> 0 <= TokenLength w ->
  (forall k, (k < 3)%nat -> Unix (wall (clock_reads w + k)%nat) = t) ->
  StepSeconds w <= t -> t + StepSeconds w <= max_int64 -> 0 <= genTime ->
  -1 <= genTime / StepSeconds w - t / StepSeconds w <= 1 ->
  exists code w',
    GenerateTOTP (addr a) genTime w = Done (code, None, w) /\
    VerifyChallenge wall (addr a) code true w = Done (true, w').
Proof.
  intros Hload Hseed Hs Hn Hclock Ht Hmax Hg Hstep.
  exists (totp w tok genTime). eexists.
  rewrite (GenerateTOTP_totp w a tok) by (assumption || lia).
  rewrite (VerifyChallenge_window wall w a tok) by (assumption || lia).
  split; [reflexivity|]. do 2 f_equal. apply match_loop_In.
  pose proof (Hclock 0%nat) as H0. pose proof (Hclock 1%nat) as H1.
  pose proof (Hclock 2%nat) as H2.
  rewrite Nat.add_0_r in H0. rewrite Nat.add_1_r in H1.
  replace (clock_reads w + 2)%nat with (S (S (clock_reads w))) in H2 by lia.
  rewrite H0, H1, H2 by lia.
  rewrite Z.add_0_r, wrap64_add_r.
  unfold max_int64 in Hmax.
  rewrite !wrap64_id by (unfold in_int64, min_int64, max_int64; lia).
  unfold totp. rewrite !Z.quot_div_nonneg by lia.
  replace (t + -1 * StepSeconds w) with (t + (-1) * StepSeconds w) by lia.
  rewrite Z.div_add by lia.
  replace (t + StepSeconds w) with (t + 1 * StepSeconds w) by lia.
  rewrite Z.div_add by lia.
  assert (Hcase : genTime / StepSeconds w = t / StepSeconds w \/
                  genTime / StepSeconds w = t / StepSeconds w + -1 \/
                  genTime / StepSeconds w = t / StepSeconds w + 1) by lia.
  cbn [In]. destruct Hcase as [-> | [-> | ->]]; auto.
Qed.

Lemma generated_code_verifies_with_drift_witness :
  exists code w',
    GenerateTOTP (addr 0) 100030 test_world = Done (code, None, test_world) /\
    VerifyChallenge (frozen 100000) (addr 0) code true test_world = Done (true, w').
Proof.
  apply (generated_code_verifies_with_drift (frozen 100000) test_world 0%nat testToken
           100000 100030).
  - reflexivity.
  - discriminate.
  - simpl. lia.
  - simpl. lia.
  - reflexivity.
  - simpl. lia.
  - unfold max_int64. simpl. lia.
  - lia.
  - simpl. change (100030 / 30) with 3334. change (100000 / 30) with 3333. lia.
Defined.

(** X18.  [VerifyChallenge] reads the clock anew for each candidate.
    With drift, for a token with a seed, it returns [true] exactly when
    the challenge equals the code of the first reading, the code of the
    second reading less [StepSeconds], or the code of the third reading
    plus [StepSeconds]; when the clock moves between the readings, the
    window moves with it. *)
Theorem VerifyChallenge_three_readings
    (wall : nat -> Time) (w : World) (a : nat) (tok : Token) (challenge : string) :
  heap w !! a = Some tok -> Seed tok <> [] ->
  StepSeconds w <> 0 -> 0 <= TokenLength w ->
  exists c0 c1 c2 b,
    GenerateTOTP (addr a) (wrap64 (Unix (wall (clock_reads w)))) w
      = Done (c0, None, w) /\
    GenerateTOTP (addr a)
      (wrap64 (Unix (wall (S (clock_reads w))) - StepSeconds w)) w
      = Done (c1, None, w) /\
    GenerateTOTP (addr a)
      (wrap64 (Unix (wall (S (S (clock_reads w)))) + StepSeconds w)) w
      = Done (c2, None, w) /\
    VerifyChallenge wall (addr a) challenge true w = Done (b, tick (tick (tick w))) /\
    (b = true <-> challenge = c0 \/ challenge = c1 \/ challenge = c2).
Proof.
  intros Hload Hseed Hs Hn.
  eexists _, _, _, _. rewrite !(GenerateTOTP_totp w a tok) by assumption.
  rewrite (VerifyChallenge_window wall w a tok) by assumption.
  rewrite wrap64_add_r, Z.add_0_r.
  replace (Unix (wall (S (clock_reads w))) + -1 * StepSeconds w)
    with (Unix (wall (S (clock_reads w))) - StepSeconds w) by lia.
  split; [reflexivity|]. split; [reflexivity|]. split; [reflexivity|].
  split; [reflexivity|]. apply match_loop_3.
Qed.

Lemma VerifyChallenge_three_readings_witness :
  exists c0 c1 c2 b,
    GenerateTOTP (addr 0) (wrap64 (Unix (frozen 100000 (clock_reads test_world))))
      test_world = Done (c0, None, test_world) /\
    GenerateTOTP (addr 0)
      (wrap64 (Unix (frozen 100000 (S (clock_reads test_world)))
               - StepSeconds test_world)) test_world
      = Done (c1, None, test_world) /\
    GenerateTOTP (addr 0)
      (wrap64 (Unix (frozen 100000 (S (S (clock_reads test_world))))
               + StepSeconds test_world)) test_world
      = Done (c2, None, test_world) /\
    VerifyChallenge (frozen 100000) (addr 0) "111782" true test_world
      = Done (b, tick (tick (tick test_world))) /\
    (b = true <-> "111782" = c0 \/ "111782" = c1 \/ "111782" = c2).
Proof.
  apply (VerifyChallenge_three_readings (frozen 100000) test_world 0%nat testToken
           "111782").
  - reflexivity.
  - discriminate.
  - simpl. lia.
  - simpl. lia.
Defined.


(** ** The display encoding *)

Lemma quantum_length (n : nat) (s0 s1 s2 s3 s4 : Z) :
  String.length (base32.quantum n s0 s1 s2 s3 s4) = 8%nat.
Proof. reflexivity. Qed.

Lemma EncodeToString_length (src : list byte) :
  String.length (base32.EncodeToString src) = (8 * ((length src + 4) / 5))%nat.
Proof.
  remember (length src) as n eqn:Hn.
  revert src Hn. induction n as [n IH] using lt_wf_ind. intros src Hn.
  destruct src as [|s0 [|s1 [|s2 [|s3 [|s4 rest]]]]]; subst n;
    try reflexivity.
  cbn [base32.EncodeToString]. rewrite append_length, quantum_length.
  rewrite (IH (length rest)) by (simpl; lia || reflexivity).
  cbn [length].
  replace (S (S (S (S (S (length rest))))) + 4)%nat
    with (length rest + 4 + 1 * 5)%nat by lia.
  rewrite Nat.div_add by lia. lia.
Qed.

Lemma ToUpper_length (s : string) : String.length (strings.ToUpper s) = String.length s.
Proof. induction s as [|c s IH]; simpl; [reflexivity | now rewrite IH]. Qed.

Lemma ToUpper_EncodeToString (src : list byte) :
  strings.ToUpper (base32.EncodeToString src) = base32.EncodeToString src.
Proof. rewrite EncodeToString_RFC4648. apply ToUpper_encode. Qed.

Lemma char_in_alphabet (v : Z) :
  In (RFC4648.char v) (list_ascii_of_string "ABCDEFGHIJKLMNOPQRSTUVWXYZ234567=").
Proof.
  unfold RFC4648.char. generalize (Z.to_nat v) as n. intros n.
  do 33 (destruct n as [|n]; [vm_compute; tauto|]). vm_compute. tauto.
Qed.

Lemma encode_alphabet (src : list byte) :
  all_chars (fun c => In c (list_ascii_of_string "ABCDEFGHIJKLMNOPQRSTUVWXYZ234567="))
    (RFC4648.encode src).
Proof.
  unfold all_chars, RFC4648.encode. rewrite list_ascii_of_string_of_list_ascii.
  apply List.Forall_app. split.
  - apply List.Forall_forall. intros c Hc. apply in_map_iff in Hc as (v & <- & _).
    apply char_in_alphabet.
  - apply List.Forall_forall. intros c Hc. apply repeat_spec in Hc. subst c.
    vm_compute. tauto.
Qed.

(** X19.  The display encoding of a token that [TokenFromBytes]
    constructs has eight characters for every five bytes of the seed,
    the last group rounded up: [8 * ceil (len / 5)] characters in all
    (none for the empty seed, 32 for a seed of 20 bytes). *)
Theorem TokenFromBytes_Base32_length (seedBytes : list byte) (w : World) :
  exists a tok w',
    TokenFromBytes seedBytes w = Done (addr a, None, w') /\
    heap w' !! a = Some tok /\
    String.length (Base32 tok) = (8 * ((length seedBytes + 4) / 5))%nat.
Proof.
  destruct (TokenFromBytes_result seedBytes w) as (w' & E & Hheap).
  eexists _, _, w'. split; [exact E|]. rewrite Hheap. split.
  - apply list_lookup_middle. reflexivity.
  - cbn [Base32]. now rewrite ToUpper_length, EncodeToString_length.
Qed.

(** X20.  [base32.StdEncoding] writes only the characters [A-Z], [2-7]
    and [=], so the [strings.ToUpper] in [TokenFromBytes] changes
    nothing: the display encoding of the constructed token is the
    encoder's output as it is, over that alphabet. *)
Theorem TokenFromBytes_Base32_alphabet (seedBytes : list byte) (w : World) :
  exists a tok w',
    TokenFromBytes seedBytes w = Done (addr a, None, w') /\
    heap w' !! a = Some tok /\
    Base32 tok = base32.EncodeToString seedBytes /\
    all_chars (fun c => In c (list_ascii_of_string "ABCDEFGHIJKLMNOPQRSTUVWXYZ234567="))
      (Base32 tok).
Proof.
  destruct (TokenFromBytes_result seedBytes w) as (w' & E & Hheap).
  eexists _, _, w'. split; [exact E|]. rewrite Hheap. split; [|split].
  - apply list_lookup_middle. reflexivity.
  - cbn [Base32]. apply ToUpper_EncodeToString.
  - cbn [Base32]. rewrite ToUpper_EncodeToString, EncodeToString_RFC4648.
    apply encode_alphabet.
Qed.

(** *** The encoding can be read back *)

Lemma list_ind5 {A : Type} (P : list A -> Prop) :
  P [] -> (forall a, P [a]) -> (forall a b, P [a; b]) ->
  (forall a b c, P [a; b; c]) -> (forall a b c d, P [a; b; c; d]) ->
  (forall a b c d e l, P l -> P (a :: b :: c :: d :: e :: l)) ->
  forall l, P l.
Proof.
  intros H0 H1 H2 H3 H4 H5 l.
  remember (length l) as n eqn:Hn. revert l Hn.
  induction n as [n IH] using lt_wf_ind. intros l Hn.
  destruct l as [|a [|b [|c [|d [|e l]]]]]; auto.
  apply H5. apply (IH (length l)); [subst n; simpl; lia | reflexivity].
Qed.

Lemma string_of_list_ascii_inj (l1 l2 : list ascii) :
  string_of_list_ascii l1 = string_of_list_ascii l2 -> l1 = l2.
Proof.
  intros H. apply (f_equal list_ascii_of_string) in H.
  now rewrite !list_ascii_of_string_of_list_ascii in H.
Qed.

Lemma padding_split (x : ascii) (l1 l2 : list ascii) (k1 k2 : nat) :
  ~ In x l1 -> ~ In x l2 ->
  (l1 ++ repeat x k1 = l2 ++ repeat x k2)%list -> l1 = l2.
Proof.
  revert l2. induction l1 as [|y1 l1 IH]; intros [|y2 l2] H1 H2 E; cbn in *.
  - reflexivity.
  - destruct k1; [discriminate|]. cbn in E. injection E as E _.
    exfalso. apply H2. left. now symmetry.
  - destruct k2; [discriminate|]. cbn in E. injection E as E _.
    exfalso. apply H1. now left.
  - injection E as -> E. f_equal. apply IH; tauto.
Qed.

Lemma group_range (b4 b3 b2 b1 b0 : bool) : 0 <= RFC4648.group b4 b3 b2 b1 b0 < 32.
Proof. unfold RFC4648.group, Z.b2z. destruct b4, b3, b2, b1, b0; lia. Qed.

Lemma group_inj (a4 a3 a2 a1 a0 b4 b3 b2 b1 b0 : bool) :
  RFC4648.group a4 a3 a2 a1 a0 = RFC4648.group b4 b3 b2 b1 b0 ->
  a4 = b4 /\ a3 = b3 /\ a2 = b2 /\ a1 = b1 /\ a0 = b0.
Proof.
  unfold RFC4648.group, Z.b2z.
  destruct a4, a3, a2, a1, a0, b4, b3, b2, b1, b0; intros H;
    try discriminate; repeat split.
Qed.

Lemma groups_range (bs : list bool) :
  List.Forall (fun v => 0 <= v < 32) (RFC4648.groups bs).
Proof.
  induction bs using list_ind5; cbn [RFC4648.groups];
    repeat constructor; try apply group_range. assumption.
Qed.

Lemma groups_length (bs : list bool) :
  length (RFC4648.groups bs) = ((length bs + 4) / 5)%nat.
Proof.
  induction bs as [| | | | |a b c d e l IH] using list_ind5; try reflexivity.
  cbn [RFC4648.groups length]. rewrite IH.
  replace (S (S (S (S (S (length l))))) + 4)%nat
    with (length l + 4 + 1 * 5)%nat by lia.
  rewrite Nat.div_add by lia. lia.
Qed.

Lemma groups_inj (l1 l2 : list bool) :
  length l1 = length l2 -> RFC4648.groups l1 = RFC4648.groups l2 -> l1 = l2.
Proof.
  revert l2. induction l1 as [| | | | |a b c d e l1 IH] using list_ind5;
    intros [|a' [|b' [|c' [|d' [|e' l2]]]]] Hlen H; try discriminate Hlen;
    try reflexivity; cbn [RFC4648.groups] in H.
  1-4: injection H as H; apply group_inj in H as (? & ? & ? & ? & ?);
    subst; reflexivity.
  injection H as Hg Hrest. apply group_inj in Hg as (? & ? & ? & ? & ?). subst.
  do 5 f_equal. apply IH; [cbn in Hlen; lia | assumption].
Qed.

Lemma char_not_padding (v : Z) : 0 <= v < 32 -> RFC4648.char v <> "="%char.
Proof.
  intros Hv. unfold RFC4648.char.
  assert (Hn : (Z.to_nat v < 32)%nat) by lia. revert Hn.
  generalize (Z.to_nat v) as n. intros n Hn.
  do 32 (destruct n as [|n]; [discriminate|]). lia.
Qed.

Lemma alphabet_NoDup : List.NoDup RFC4648.alphabet.
Proof.
  unfold RFC4648.alphabet. cbn [list_ascii_of_string].
  repeat (constructor; [cbn [In]; intuition discriminate|]). constructor.
Qed.

Lemma char_inj (u v : Z) :
  0 <= u < 32 -> 0 <= v < 32 -> RFC4648.char u = RFC4648.char v -> u = v.
Proof.
  intros Hu Hv H. unfold RFC4648.char in H.
  apply (proj1 (List.NoDup_nth RFC4648.alphabet "="%char) alphabet_NoDup) in H;
    change (length RFC4648.alphabet) with 32%nat; lia.
Qed.

Lemma map_char_inj (l1 l2 : list Z) :
  List.Forall (fun v => 0 <= v < 32) l1 -> List.Forall (fun v => 0 <= v < 32) l2 ->
  map RFC4648.char l1 = map RFC4648.char l2 -> l1 = l2.
Proof.
  intros H1. revert l2. induction H1 as [|u l1 Hu _ IH]; intros l2 H2 E;
    destruct H2 as [|v l2 Hv H2]; try discriminate; [reflexivity|].
  cbn [map] in E. injection E as E E'. f_equal; [now apply char_inj | now apply IH].
Qed.

Lemma testbit_byte_high (x : byte) (n : Z) :
  8 <= n -> Z.testbit (byte_val x) n = false.
Proof.
  intros Hn. pose proof (byte_val_range x) as Hx.
  destruct (Z.eq_dec (byte_val x) 0) as [->|Hnz]; [apply Z.testbit_0_l|].
  apply Z.bits_above_log2; [lia|].
  assert (Z.log2 (byte_val x) < 8) by (apply Z.log2_lt_pow2; lia). lia.
Qed.

Lemma bits_inj (x y : byte) : RFC4648.bits x = RFC4648.bits y -> x = y.
Proof.
  unfold RFC4648.bits. intros H. injection H as H7 H6 H5 H4 H3 H2 H1 H0.
  rewrite <- (to_byte_byte_val x), <- (to_byte_byte_val y). f_equal.
  apply Z.bits_inj'. intros n Hn.
  destruct (Z_lt_le_dec n 8) as [Hlt|Hge].
  - assert (Hc : n = 0 \/ n = 1 \/ n = 2 \/ n = 3 \/ n = 4 \/ n = 5 \/ n = 6 \/ n = 7)
      by lia.
    repeat (destruct Hc as [->|Hc]; [assumption|]). now subst n.
  - now rewrite !testbit_byte_high.
Qed.

Lemma flat_map_bits_inj (a b : list byte) :
  flat_map RFC4648.bits a = flat_map RFC4648.bits b -> a = b.
Proof.
  revert b. induction a as [|x a IH]; intros [|y b] H; try discriminate;
    [reflexivity|].
  cbn [flat_map] in H.
  assert (Hx : RFC4648.bits x = RFC4648.bits y /\
               flat_map RFC4648.bits a = flat_map RFC4648.bits b).
  { unfold RFC4648.bits in H |- *. cbn [app] in H.
    injection H as H7 H6 H5 H4 H3 H2 H1 H0 Hr. split; [|exact Hr].
    repeat (apply f_equal2; [assumption|]). reflexivity. }
  destruct Hx as [Hx Hr]. f_equal; [now apply bits_inj | now apply IH].
Qed.

Lemma flat_map_bits_length (a : list byte) :
  length (flat_map RFC4648.bits a) = (8 * length a)%nat.
Proof.
  induction a as [|x a IH]; [reflexivity|].
  cbn [flat_map]. rewrite length_app, IH. cbn [RFC4648.bits length]. lia.
Qed.

Lemma encode_inj (a b : list byte) : RFC4648.encode a = RFC4648.encode b -> a = b.
Proof.
  unfold RFC4648.encode. intros H. apply string_of_list_ascii_inj in H.
  assert (Hnp : forall bs, ~ In "="%char (map RFC4648.char (RFC4648.groups bs))).
  { intros bs Hin. apply in_map_iff in Hin as (v & Hv & Hin).
    pose proof (proj1 (List.Forall_forall _ _) (groups_range bs) v Hin).
    now apply (char_not_padding v). }
  apply padding_split in H; [|apply Hnp|apply Hnp].
  apply map_char_inj in H; [|apply groups_range|apply groups_range].
  apply flat_map_bits_inj, groups_inj; [|assumption].
  apply (f_equal (@length Z)) in H.
  rewrite !groups_length, !flat_map_bits_length in H.
  rewrite !flat_map_bits_length.
  pose proof (Nat.div_mod_eq (8 * length a + 4) 5).
  pose proof (Nat.div_mod_eq (8 * length b + 4) 5).
  pose proof (Nat.mod_upper_bound (8 * length a + 4) 5).
  pose proof (Nat.mod_upper_bound (8 * length b + 4) 5).
  lia.
Qed.

(** X21.  The display encoding identifies the secret: two tokens that
    [TokenFromBytes] constructs with the same [Base32] have the same
    [Seed]. *)
Theorem Base32_determines_Seed
    (seed1 seed2 : list byte) (w1 w2 w1' w2' : World) (a1 a2 : nat)
    (tok1 tok2 : Token) :
  TokenFromBytes seed1 w1 = Done (addr a1, None, w1') -> heap w1' !! a1 = Some tok1 ->
  TokenFromBytes seed2 w2 = Done (addr a2, None, w2') -> heap w2' !! a2 = Some tok2 ->
  Base32 tok1 = Base32 tok2 -> Seed tok1 = Seed tok2.
Proof.
  intros E1 H1 E2 H2 Hb.
  destruct (TokenFromBytes_result seed1 w1) as (w1'' & E1' & Hh1).
  destruct (TokenFromBytes_result seed2 w2) as (w2'' & E2' & Hh2).
  rewrite E1 in E1'. injection E1' as -> ->.
  rewrite E2 in E2'. injection E2' as -> ->.
  rewrite Hh1, list_lookup_middle in H1 by reflexivity.
  rewrite Hh2, list_lookup_middle in H2 by reflexivity.
  injection H1 as <-. injection H2 as <-. cbn [Seed Base32] in *.
  rewrite !ToUpper_EncodeToString, !EncodeToString_RFC4648 in Hb.
  now apply encode_inj.
Qed.

Lemma Base32_determines_Seed_witness : Seed testToken = Seed testToken.
Proof.
  apply (Base32_determines_Seed testSeedBytes testSeedBytes start start
           test_world test_world 0%nat 0%nat testToken testToken);
    reflexivity.
Defined.

(** ** Construction and the other tokens *)

Lemma TokenFromBytes_world (seedBytes : list byte) (w : World) :
  exists w',
    TokenFromBytes seedBytes w = Done (addr (length (heap w)), None, w') /\
    heap w' = (heap w ++ [{| Seed := seedBytes;
                            Base32 := strings.ToUpper (base32.EncodeToString seedBytes) |}])%list /\
    StepSeconds w' = StepSeconds w /\ TokenLength w' = TokenLength w.
Proof. eexists. repeat split; reflexivity. Qed.

Lemma GenerateOTP_result_same
    (w1 w2 : World) (a : nat) (tok : Token) (counterBytes : list byte) :
  heap w1 !! a = Some tok -> heap w2 !! a = Some tok ->
  TokenLength w2 = TokenLength w1 ->
  result_of (GenerateOTP (addr a) counterBytes w2)
  = result_of (GenerateOTP (addr a) counterBytes w1).
Proof.
  intros H1 H2 Hn.
  destruct (Seed tok) as [|s0 seed] eqn:Eseed.
  { now rewrite (GenerateOTP_no_seed w1 a tok), (GenerateOTP_no_seed w2 a tok). }
  assert (Hseed : Seed tok <> []) by (rewrite Eseed; discriminate).
  destruct counterBytes as [|c0 ctr].
  { now rewrite (GenerateOTP_no_counter w1 a tok), (GenerateOTP_no_counter w2 a tok). }
  rewrite (GenerateOTP_truncate w1 a tok), (GenerateOTP_truncate w2 a tok)
    by (assumption || discriminate).
  rewrite Hn. unfold bind, int_rem, throw, ret.
  now destruct (int_Pow10 (TokenLength w1) =? 0).
Qed.

Lemma GenerateTOTP_result_same
    (w1 w2 : World) (a : nat) (tok : Token) (genTime : Z) :
  heap w1 !! a = Some tok -> heap w2 !! a = Some tok ->
  TokenLength w2 = TokenLength w1 -> StepSeconds w2 = StepSeconds w1 ->
  result_of (GenerateTOTP (addr a) genTime w2)
  = result_of (GenerateTOTP (addr a) genTime w1).
Proof.
  intros H1 H2 Hn Hs.
  destruct (Z.eq_dec (StepSeconds w1) 0) as [Hz|Hnz].
  - rewrite !GenerateTOTP_zero_step by congruence. reflexivity.
  - rewrite !GenerateTOTP_counter by congruence. rewrite Hs.
    now apply (GenerateOTP_result_same w1 w2 a tok).
Qed.

(** X22.  Constructing a token leaves the others alone: [TokenFromBytes]
    returns a pointer different from every token already there, and
    that token stays in place and yields, for every counter and every
    time, what it yielded before. *)
Theorem TokenFromBytes_frame
    (seedBytes : list byte) (w : World) (a : nat) (tok : Token) :
  heap w !! a = Some tok ->
  exists a' w',
    TokenFromBytes seedBytes w = Done (addr a', None, w') /\
    a' <> a /\
    heap w' !! a = Some tok /\
    (forall counterBytes,
       result_of (GenerateOTP (addr a) counterBytes w')
       = result_of (GenerateOTP (addr a) counterBytes w)) /\
    (forall genTime,
       result_of (GenerateTOTP (addr a) genTime w')
       = result_of (GenerateTOTP (addr a) genTime w)).
Proof.
  intros Hload.
  destruct (TokenFromBytes_world seedBytes w) as (w' & E & Hheap & Hs & Hn).
  assert (Hload' : heap w' !! a = Some tok)
    by (rewrite Hheap; now apply lookup_app_l_Some).
  exists (length (heap w)), w'. split; [exact E|]. split; [|split; [exact Hload'|split]].
  - apply lookup_lt_Some in Hload. lia.
  - intros c. now apply (GenerateOTP_result_same w w' a tok).
  - intros g. now apply (GenerateTOTP_result_same w w' a tok).
Qed.

Lemma TokenFromBytes_frame_witness :
  exists a' w',
    TokenFromBytes [] test_world = Done (addr a', None, w') /\
    a' <> 0%nat /\
    heap w' !! 0%nat = Some testToken /\
    (forall counterBytes,
       result_of (GenerateOTP (addr 0) counterBytes w')
       = result_of (GenerateOTP (addr 0) counterBytes test_world)) /\
    (forall genTime,
       result_of (GenerateTOTP (addr 0) genTime w')
       = result_of (GenerateTOTP (addr 0) genTime test_world)).
Proof.
  apply (TokenFromBytes_frame [] test_world 0%nat testToken). reflexivity.
Defined.

(** X23.  [TokenFromBytes] accepts the empty seed, but the token it
    returns cannot be used: its display encoding is empty, [GenerateOTP]
    and [GenerateTOTP] return "OTP has no seed." for every counter and
    time, and [VerifyChallenge] returns [false] for every challenge,
    with or without drift ([StepSeconds] not 0). *)
Theorem seedless_token_is_unusable (wall : nat -> Time) (w : World) :
  StepSeconds w <> 0 ->
  exists a tok w',
    TokenFromBytes [] w = Done (addr a, None, w') /\
    heap w' !! a = Some tok /\ Seed tok = [] /\ Base32 tok = "" /\
    (forall counterBytes,
       GenerateOTP (addr a) counterBytes w' = Done ("", Some "OTP has no seed.", w')) /\
    (forall genTime,
       GenerateTOTP (addr a) genTime w' = Done ("", Some "OTP has no seed.", w')) /\
    (forall challenge drift,
       VerifyChallenge wall (addr a) challenge drift w' = Done (false, tick w')).
Proof.
  intros Hs.
  destruct (TokenFromBytes_world [] w) as (w' & E & Hheap & Hs' & _).
  assert (Hload : heap w' !! length (heap w) = Some {| Seed := []; Base32 := "" |})
    by (rewrite Hheap; apply list_lookup_middle; reflexivity).
  eexists _, _, w'. split; [exact E|]. split; [exact Hload|].
  split; [reflexivity|]. split; [reflexivity|]. split; [|split].
  - intros c. now apply (GenerateOTP_no_seed w' _ _ c Hload).
  - intros g. rewrite GenerateTOTP_counter by congruence.
    now apply (GenerateOTP_no_seed w' _ _ _ Hload).
  - intros ch drift.
    apply (VerifyChallenge_no_seed wall w' _ _ Hload); [congruence | reflexivity].
Qed.

Lemma seedless_token_is_unusable_witness :
  exists a tok w',
    TokenFromBytes [] start = Done (addr a, None, w') /\
    heap w' !! a = Some tok /\ Seed tok = [] /\ Base32 tok = "" /\
    (forall counterBytes,
       GenerateOTP (addr a) counterBytes w' = Done ("", Some "OTP has no seed.", w')) /\
    (forall genTime,
       GenerateTOTP (addr a) genTime w' = Done ("", Some "OTP has no seed.", w')) /\
    (forall challenge drift,
       VerifyChallenge (frozen 100000) (addr a) challenge drift w'
       = Done (false, tick w')).
Proof.
  apply (seedless_token_is_unusable (frozen 100000) start). simpl. lia.
Defined.
